(** * instascan: the scan loop and the activation state machine of [scanner.js]

    A shallow embedding of [src/scanner.js].  The three classes of the file
    ([ActiveScan], [Analyzer], [Scanner]) become three modules; the browser
    objects they talk to (the timer queue, the [window] global that collects
    the decoder's output, the decoder heap, the page visibility, the cameras
    that are streaming, the log of calls and emitted events) live in
    [Window.t], which every method threads explicitly.

    Modelling conventions.
    - JavaScript numbers are integers ([Z]); [null] and [undefined] are
      [None].
    - One call of a method runs to completion before the next one starts
      (the event loop is single threaded and the state machine serialises
      its transitions), so an [async] method is a function that returns
      either the new state or the error its promise rejects with.
    - What the outside world answers during one frame (the video size, the
      pixels, the decoder's status and the chunks it hands to the callback)
      is the [Frame] a tick receives as input.
    - Timers fire when the clock is advanced to their due time or beyond. *)

From Stdlib Require Import ZArith List String Bool Lia.
Import ListNotations.
Open Scope Z_scope.

(** ** JavaScript truthiness and [||] *)

Definition truthy_number (z : Z) : bool := negb (z =? 0).
Definition truthy_string (s : string) : bool := negb (s =? "")%string.

(** [x || d] for an optional option field of [opts]. *)
Definition or_number (x : option Z) (d : Z) : Z :=
  match x with
  | Some v => if truthy_number v then v else d
  | None => d
  end.

Definition or_bool (x : option bool) (d : bool) : bool :=
  match x with
  | Some v => if v then v else d
  | None => d
  end.

(** [a === b] where [b] is a string and [a] is a string, [null] or
    [undefined]. *)
Definition strict_eq (a : option string) (b : string) : bool :=
  match a with
  | Some s => (s =? b)%string
  | None => false
  end.

(** ** Errors and results of asynchronous methods *)

Inductive error :=
| CameraNotDefined          (* new Error('Camera is not defined.') *)
| VideoNotVideoElement      (* new Error('Video must be a <video> element.') *)
| CameraStartRejected       (* the promise of camera.start() rejected *)
| InvalidTransition.        (* the state machine refused the event *)

Definition message (e : error) : string :=
  match e with
  | CameraNotDefined => "Camera is not defined."
  | VideoNotVideoElement => "Video must be a <video> element."
  | CameraStartRejected => "camera.start() rejected"
  | InvalidTransition => "Invalid event in current state"
  end.

Inductive result (A : Type) :=
| Ok (a : A)
| Err (e : error).
Arguments Ok {A} a.
Arguments Err {A} e.

Definition bind {A B} (r : result A) (k : A -> result B) : result B :=
  match r with
  | Ok a => k a
  | Err e => Err e
  end.

Notation "'await' x <- r ; k" := (bind r (fun x => k))
  (at level 10, x pattern, r at level 100, k at level 200).

(** ** The browser side *)

Module Window.

(** The two closures [ActiveScan._scan] hands to [setTimeout]. *)
Inductive task :=
| ClearLastResult
| EmitScan (result : string) (image : option string).

Record timer := mkTimer { timer_id : nat; due : Z; callback : task }.

(** Events of the [EventEmitter]. *)
Inductive event :=
| Scan (result : string) (image : option string)
| Active
| Inactive.

(** Calls that leave the module, in the order they happen. *)
Inductive effect :=
| RequestAnimationFrame
| Analyze
| Resize (width height : Z)
| DrawImage (left top width height : option Z)
| GetImageData (width height : option Z)
| DecodeQr
| CameraStart (id : nat)
| CameraStop (id : nat)
| VideoSrc (url : string)
| Emit (e : event).

Record t := mk {
  now : Z;
  timers : list timer;
  next_timer : nat;
  zxDecodeResult : option string;
  HEAPU8 : list (Z * Z);
  visibility : string;
  streaming : list nat;
  trace : list effect
}.

Definition log (e : effect) (w : t) : t :=
  mk (now w) (timers w) (next_timer w) (zxDecodeResult w) (HEAPU8 w)
     (visibility w) (streaming w) (trace w ++ [e]).

Definition set_timers (q : list timer) (n : nat) (w : t) : t :=
  mk (now w) q n (zxDecodeResult w) (HEAPU8 w)
     (visibility w) (streaming w) (trace w).

Definition set_now (z : Z) (w : t) : t :=
  mk z (timers w) (next_timer w) (zxDecodeResult w) (HEAPU8 w)
     (visibility w) (streaming w) (trace w).

Definition set_zxDecodeResult (r : option string) (w : t) : t :=
  mk (now w) (timers w) (next_timer w) r (HEAPU8 w)
     (visibility w) (streaming w) (trace w).

Definition set_HEAPU8 (h : list (Z * Z)) (w : t) : t :=
  mk (now w) (timers w) (next_timer w) (zxDecodeResult w) h
     (visibility w) (streaming w) (trace w).

Definition set_visibility (v : string) (w : t) : t :=
  mk (now w) (timers w) (next_timer w) (zxDecodeResult w) (HEAPU8 w)
     v (streaming w) (trace w).

Definition set_streaming (l : list nat) (w : t) : t :=
  mk (now w) (timers w) (next_timer w) (zxDecodeResult w) (HEAPU8 w)
     (visibility w) l (trace w).

(** The queue is kept in firing order: by due time, and among equal due
    times in the order of registration. *)
Fixpoint enqueue (tm : timer) (q : list timer) : list timer :=
  match q with
  | [] => [tm]
  | x :: rest => if due x <=? due tm then x :: enqueue tm rest
                 else tm :: x :: rest
  end.

(** [setTimeout(cb, delay)]: a negative delay counts as zero. *)
Definition setTimeout (cb : task) (delay : Z) (w : t) : nat * t :=
  let id := next_timer w in
  (id, set_timers (enqueue (mkTimer id (now w + Z.max 0 delay) cb) (timers w))
                  (S id) w).

(** [clearTimeout(id)]: [undefined] and ids of timers that already fired
    cancel nothing. *)
Definition clearTimeout (id : option nat) (w : t) : t :=
  match id with
  | None => w
  | Some i =>
      set_timers (filter (fun tm => negb (Nat.eqb (timer_id tm) i)) (timers w))
                 (next_timer w) w
  end.

Definition requestAnimationFrame (w : t) : t := log RequestAnimationFrame w.

(** [Visibility.state() === 'visible'] *)
Definition page_visible (w : t) : bool := (visibility w =? "visible")%string.

(** A browser in which nothing has happened yet. *)
Definition fresh (visibility : string) : t :=
  mk 0 [] 0 None [] visibility [] [].

End Window.

(** What the video element and the decoder answer during one tick. *)
Record Frame := mkFrame {
  videoWidth : Z;
  videoHeight : Z;
  imageData : list Z;                   (* getImageData(...).data, RGBA *)
  resized : Z;                          (* what ZXing._resize returns *)
  decode_status : Z;                    (* what ZXing._decode_qr returns *)
  decode_chunks : list (string * Z);    (* (text, resultIndex) per callback call *)
  dataURL : string                      (* what canvas.toDataURL returns *)
}.

(** ** class Analyzer *)

Module Analyzer.

Record canvas := mkCanvas { width : option Z; height : option Z }.

Record t := mk {
  imageBuffer : option Z;
  sensorLeft : option Z;
  sensorTop : option Z;
  sensorWidth : option Z;
  sensorHeight : option Z;
  canvas_ : canvas;
  canvasContext : bool
}.

(** The constructor. *)
Definition new : t :=
  mk None None None None None (mkCanvas None None) false.

(** [!this.imageBuffer]: [null] and the address 0 are both falsy. *)
Definition has_buffer (this : t) : bool :=
  match imageBuffer this with
  | Some p => truthy_number p
  | None => false
  end.

(** [undefined + str] is the string "undefined" followed by [str]. *)
Definition js_append (acc : option string) (str : string) : string :=
  match acc with
  | Some s => (s ++ str)%string
  | None => ("undefined" ++ str)%string
  end.

(** The function registered with [ZXing.Runtime.addFunction]. *)
Definition decodeCallback (acc : option string) (chunk : string * Z)
  : option string :=
  let '(str, resultIndex) := chunk in
  let acc := if resultIndex =? 0 then Some ""%string else acc in
  Some (js_append acc str).

(** The copy loop: [for (i = 0, j = 0; i < data.length; i += 4, j++)
    HEAPU8[imageBuffer + j] = data[i]]. *)
Fixpoint copy_channel (data : list Z) (base j : Z) (heap : list (Z * Z))
  : list (Z * Z) :=
  match data with
  | [] => heap
  | r :: _ :: _ :: _ :: rest =>
      copy_channel rest base (j + 1) ((base + j, r mod 256) :: heap)
  | r :: _ => (base + j, r mod 256) :: heap
  end.

Definition analyze (f : Frame) (this : t) (w : Window.t)
  : option (string * canvas) * t * Window.t :=
  let w := Window.log Window.Analyze w in
  if negb (truthy_number (videoWidth f)) then (None, this, w)
  else if negb (has_buffer this) then
    let videoWidth := videoWidth f in
    let videoHeight := videoHeight f in
    let sensorWidth := videoWidth in
    let sensorHeight := videoHeight in
    (* Math.floor(a / 2 - b / 2) *)
    let sensorLeft := (videoWidth - sensorWidth) / 2 in
    let sensorTop := (videoHeight - sensorHeight) / 2 in
    let w := Window.log (Window.Resize sensorWidth sensorHeight) w in
    (None,
     mk (Some (resized f)) (Some sensorLeft) (Some sensorTop)
        (Some sensorWidth) (Some sensorHeight)
        (mkCanvas (Some sensorWidth) (Some sensorHeight)) true,
     w)
  else
    let w := Window.log (Window.DrawImage (sensorLeft this) (sensorTop this)
                           (sensorWidth this) (sensorHeight this)) w in
    let w := Window.log (Window.GetImageData (sensorWidth this)
                           (sensorHeight this)) w in
    let base := match imageBuffer this with Some p => p | None => 0 end in
    let w := Window.set_HEAPU8
               (copy_channel (imageData f) base 0 (Window.HEAPU8 w)) w in
    let w := Window.log Window.DecodeQr w in
    let w := Window.set_zxDecodeResult
               (fold_left decodeCallback (decode_chunks f)
                  (Window.zxDecodeResult w)) w in
    if truthy_number (decode_status f) then (None, this, w)
    else
      match Window.zxDecodeResult w with
      | Some result => (Some (result, canvas_ this), this, w)
      | None => (None, this, w)
      end.

End Analyzer.

(** ** class ActiveScan *)

Module ActiveScan.

Record t := mk {
  scanPeriod : Z;
  captureImage : bool;
  refractoryPeriod : Z;
  _frameCount : Z;
  _analyzer : Analyzer.t;
  _active : bool;
  lastResult : option string;
  refractoryTimeout : option nat
}.

(** The constructor; [_emitter] is the scanner, whose emissions go to the
    trace of the window.  [lastResult] and [refractoryTimeout] start out
    undefined. *)
Definition new (analyzer : Analyzer.t) (captureImage : bool)
    (scanPeriod refractoryPeriod : Z) : t :=
  mk scanPeriod captureImage refractoryPeriod 0 analyzer false None None.

Definition set_scanPeriod (v : Z) (this : t) : t :=
  mk v (captureImage this) (refractoryPeriod this) (_frameCount this)
     (_analyzer this) (_active this) (lastResult this) (refractoryTimeout this).

Definition set_captureImage (v : bool) (this : t) : t :=
  mk (scanPeriod this) v (refractoryPeriod this) (_frameCount this)
     (_analyzer this) (_active this) (lastResult this) (refractoryTimeout this).

Definition set_refractoryPeriod (v : Z) (this : t) : t :=
  mk (scanPeriod this) (captureImage this) v (_frameCount this)
     (_analyzer this) (_active this) (lastResult this) (refractoryTimeout this).

Definition set_frameCount (v : Z) (this : t) : t :=
  mk (scanPeriod this) (captureImage this) (refractoryPeriod this) v
     (_analyzer this) (_active this) (lastResult this) (refractoryTimeout this).

Definition set_analyzer (v : Analyzer.t) (this : t) : t :=
  mk (scanPeriod this) (captureImage this) (refractoryPeriod this)
     (_frameCount this) v (_active this) (lastResult this)
     (refractoryTimeout this).

Definition set_active (v : bool) (this : t) : t :=
  mk (scanPeriod this) (captureImage this) (refractoryPeriod this)
     (_frameCount this) (_analyzer this) v (lastResult this)
     (refractoryTimeout this).

Definition set_lastResult (v : option string) (this : t) : t :=
  mk (scanPeriod this) (captureImage this) (refractoryPeriod this)
     (_frameCount this) (_analyzer this) (_active this) v
     (refractoryTimeout this).

Definition set_refractoryTimeout (v : option nat) (this : t) : t :=
  mk (scanPeriod this) (captureImage this) (refractoryPeriod this)
     (_frameCount this) (_analyzer this) (_active this) (lastResult this) v.

Definition start (this : t) (w : Window.t) : t * Window.t :=
  (set_active true this, Window.requestAnimationFrame w).

Definition stop (this : t) : t := set_active false this.

(** One frame callback. *)
Definition _scan (f : Frame) (this : t) (w : Window.t) : t * Window.t :=
  if negb (_active this) then (this, w)
  else
    let w := Window.requestAnimationFrame w in
    let this := set_frameCount (_frameCount this + 1) this in
    if negb (_frameCount this =? scanPeriod this) then (this, w)
    else
      let this := set_frameCount 0 this in
      let '(analysis, analyzer, w) := Analyzer.analyze f (_analyzer this) w in
      let this := set_analyzer analyzer this in
      match analysis with
      | None => (this, w)
      | Some (result, canvas) =>
          if negb (truthy_string result) || strict_eq (lastResult this) result
          then (this, w)
          else
            let w := Window.clearTimeout (refractoryTimeout this) w in
            let '(id, w) :=
              Window.setTimeout Window.ClearLastResult (refractoryPeriod this) w in
            let this := set_refractoryTimeout (Some id) this in
            let image := if captureImage this then Some (dataURL f) else None in
            let this := set_lastResult (Some result) this in
            let '(_, w) := Window.setTimeout (Window.EmitScan result image) 0 w in
            (this, w)
      end.

(** Running the callback of a timer that fires. *)
Definition run_task (st : t * Window.t) (tm : Window.timer) : t * Window.t :=
  let '(this, w) := st in
  match Window.callback tm with
  | Window.ClearLastResult => (set_lastResult None this, w)
  | Window.EmitScan result image =>
      (this, Window.log (Window.Emit (Window.Scan result image)) w)
  end.

(** The clock reaches [t]: every timer that is due fires, in queue order. *)
Definition advance (t : Z) (this : ActiveScan.t) (w : Window.t)
  : ActiveScan.t * Window.t :=
  let t := Z.max (Window.now w) t in
  let '(ready, waiting) :=
    partition (fun tm => Window.due tm <=? t) (Window.timers w) in
  fold_left run_task ready
    (this, Window.set_now t (Window.set_timers waiting (Window.next_timer w) w)).

(** A frame callback that runs when the clock shows [t]. *)
Definition tick (this : t) (w : Window.t) (s : Z * Frame) : t * Window.t :=
  let '(this, w) := advance (fst s) this w in
  _scan (snd s) this w.

Definition run (sched : list (Z * Frame)) (this : t) (w : Window.t)
  : t * Window.t :=
  fold_left (fun st s => tick (fst st) (snd st) s) sched (this, w).

End ActiveScan.

(** ** class Scanner *)

(** A camera of the provider: [start()] resolves to a stream URL or
    rejects, [stop()] releases the stream. *)
Record Camera := mkCamera { camera_id : nat; stream : option string }.

(** The fields of [opts] the constructor reads; [video] is the [tagName] of
    the element that was passed, if one was. *)
Record Opts := mkOpts {
  opts_video : option string;
  opts_mirror : option bool;
  opts_backgroundScan : option bool;
  opts_captureImage : option bool;
  opts_scanPeriod : option Z;
  opts_refractoryPeriod : option Z
}.

Module Scanner.

Inductive state := stopped | started | active | inactive.

Inductive event_name := start_ | stop_ | activate | deactivate.

Definition state_eqb (a b : state) : bool :=
  match a, b with
  | stopped, stopped | started, started
  | active, active | inactive, inactive => true
  | _, _ => false
  end.

Definition event_name_eqb (a b : event_name) : bool :=
  match a, b with
  | start_, start_ | stop_, stop_
  | activate, activate | deactivate, deactivate => true
  | _, _ => false
  end.

Record video := mkVideo { src : string; autoplay : bool; mirrored : bool }.

Record t := mk {
  video_ : video;
  backgroundScan : bool;
  _camera : option Camera;
  _scan : ActiveScan.t;
  _fsm : state
}.

(** [this._analyzer] is the object the scan loop holds. *)
Definition _analyzer (this : t) : Analyzer.t := ActiveScan._analyzer (_scan this).

Definition set_video_src (s : string) (this : t) : t :=
  mk (mkVideo s (autoplay (video_ this)) (mirrored (video_ this)))
     (backgroundScan this) (_camera this) (_scan this) (_fsm this).

Definition set_camera (c : option Camera) (this : t) : t :=
  mk (video_ this) (backgroundScan this) c (_scan this) (_fsm this).

Definition set_scan (s : ActiveScan.t) (this : t) : t :=
  mk (video_ this) (backgroundScan this) (_camera this) s (_fsm this).

Definition set_fsm (s : state) (this : t) : t :=
  mk (video_ this) (backgroundScan this) (_camera this) (_scan this) s.

Definition emit (e : Window.event) (w : Window.t) : Window.t :=
  Window.log (Window.Emit e) w.

(** *** The table handed to [StateMachine.create] *)

Record transition := mkTransition {
  name : event_name;
  from : list state;
  to : list state
}.

Definition events : list transition :=
  [ mkTransition start_ [stopped] [started];
    mkTransition stop_ [started; active; inactive] [stopped];
    mkTransition activate [started; inactive] [active; inactive];
    mkTransition deactivate [started; active] [inactive] ].

(** The [condition] of the [activate] event. *)
Definition condition (this : t) (w : Window.t) : state :=
  if Window.page_visible w || backgroundScan this then active else inactive.

Definition lookup (ev : event_name) (s : state) : option transition :=
  find (fun tr => event_name_eqb (name tr) ev && existsb (state_eqb s) (from tr))
       events.

(** [this._fsm.can(ev)] *)
Definition can (ev : event_name) (this : t) : bool :=
  match lookup ev (_fsm this) with
  | Some _ => true
  | None => false
  end.

(** The state an event leads to: the single target, or the one the
    condition picks. *)
Definition target (tr : transition) (this : t) (w : Window.t) : state :=
  match to tr with
  | [s] => s
  | _ => condition this w
  end.

(** *** Methods the callbacks use *)

Definition camera_start (c : Camera) (w : Window.t) : result (string * Window.t) :=
  let w := Window.log (Window.CameraStart (camera_id c)) w in
  match stream c with
  | Some url => Ok (url, Window.set_streaming (camera_id c :: Window.streaming w) w)
  | None => Err CameraStartRejected
  end.

Definition camera_stop (c : Camera) (w : Window.t) : Window.t :=
  let w := Window.log (Window.CameraStop (camera_id c)) w in
  Window.set_streaming
    (filter (fun i => negb (Nat.eqb i (camera_id c))) (Window.streaming w)) w.

(** [camera || this._camera] *)
Definition resolve (camera stored : option Camera) : option Camera :=
  match camera with
  | Some c => Some c
  | None => stored
  end.

Definition _enableScan (camera : option Camera) (this : t) (w : Window.t)
  : result (t * Window.t) :=
  let this := set_camera (resolve camera (_camera this)) this in
  match _camera this with
  | None => Err CameraNotDefined
  | Some c =>
      await (streamUrl, w) <- camera_start c w;
      let this := set_video_src streamUrl this in
      let w := Window.log (Window.VideoSrc streamUrl) w in
      let '(scan, w) := ActiveScan.start (_scan this) w in
      Ok (set_scan scan this, w)
  end.

Definition _disableScan (this : t) (w : Window.t) : t * Window.t :=
  let this := set_video_src "" this in
  let w := Window.log (Window.VideoSrc "") w in
  let this := set_scan (ActiveScan.stop (_scan this)) this in
  match _camera this with
  | Some c => (this, camera_stop c w)
  | None => (this, w)
  end.

(** *** The callbacks *)

Definition onenteractive (args : option Camera) (this : t) (w : Window.t)
  : result (t * Window.t) :=
  await (this, w) <- _enableScan args this w;
  Ok (this, emit Window.Active w).

Definition onleaveactive (this : t) (w : Window.t) : t * Window.t :=
  let '(this, w) := _disableScan this w in
  (this, emit Window.Inactive w).

(** *** Firing an event

    [StateMachine] is the external library fsm-as-promised; what it does with
    the table and the callbacks above is taken from its documentation.  It
    checks that the event is allowed in the current state, runs the [onleave]
    callback of the state it leaves, changes state, runs the [onenter]
    callback of the state it enters and then its [onentered] callback; the
    promise of the event rejects with what a callback rejects with, and what
    state the machine is in after a rejection is left open here. *)
Definition fire
    (onentered : state -> option Camera -> t -> Window.t -> result (t * Window.t))
    (ev : event_name) (args : option Camera) (this : t) (w : Window.t)
  : result (t * Window.t) :=
  match lookup ev (_fsm this) with
  | None => Err InvalidTransition
  | Some tr =>
      let dest := target tr this w in
      let '(this, w) :=
        match _fsm this with
        | active => onleaveactive this w
        | _ => (this, w)
        end in
      let this := set_fsm dest this in
      await (this, w) <-
        match dest with
        | active => onenteractive args this w
        | _ => Ok (this, w)
        end;
      onentered dest args this w
  end.

(** [this._fsm.activate(camera)]; neither of its targets has an
    [onentered] callback. *)
Definition fsm_activate : option Camera -> t -> Window.t -> result (t * Window.t) :=
  fire (fun _ _ this w => Ok (this, w)) activate.

(** [onenteredstarted] is the only [onentered] callback. *)
Definition onentered (s : state) (args : option Camera) (this : t) (w : Window.t)
  : result (t * Window.t) :=
  match s with
  | started => fsm_activate args this w
  | _ => Ok (this, w)
  end.

Definition fsm_start : option Camera -> t -> Window.t -> result (t * Window.t) :=
  fire onentered start_.

Definition fsm_stop : t -> Window.t -> result (t * Window.t) :=
  fire onentered stop_ None.

Definition fsm_deactivate : t -> Window.t -> result (t * Window.t) :=
  fire onentered deactivate None.

(** *** The public methods *)

Definition start (camera : option Camera) (this : t) (w : Window.t)
  : result (t * Window.t) :=
  if can start_ this then fsm_start camera this w
  else
    await (this, w) <- fsm_stop this w;
    fsm_start camera this w.

Definition stop (this : t) (w : Window.t) : result (t * Window.t) :=
  if can stop_ this then fsm_stop this w else Ok (this, w).

Definition set_captureImage (capture : bool) (this : t) : t :=
  set_scan (ActiveScan.set_captureImage capture (_scan this)) this.

Definition captureImage (this : t) : bool := ActiveScan.captureImage (_scan this).

Definition set_scanPeriod (period : Z) (this : t) : t :=
  set_scan (ActiveScan.set_scanPeriod period (_scan this)) this.

Definition scanPeriod (this : t) : Z := ActiveScan.scanPeriod (_scan this).

Definition set_refractoryPeriod (period : Z) (this : t) : t :=
  set_scan (ActiveScan.set_refractoryPeriod period (_scan this)) this.

Definition refractoryPeriod (this : t) : Z :=
  ActiveScan.refractoryPeriod (_scan this).

(** *** The constructor *)

Definition _configureVideo (opts : Opts) : result video :=
  match opts_video opts with
  | Some tagName =>
      if negb (tagName =? "VIDEO")%string then Err VideoNotVideoElement
      else
        (* opts.mirror !== false && opts.video *)
        Ok (mkVideo "" true
              (match opts_mirror opts with Some false => false | _ => true end))
  | None => Ok (mkVideo "" true false)
  end.

Definition new (opts : Opts) (w : Window.t) : result (t * Window.t) :=
  await video <- _configureVideo opts;
  let backgroundScan := or_bool (opts_backgroundScan opts) false in
  let analyzer := Analyzer.new in
  let captureImage := or_bool (opts_captureImage opts) false in
  let scanPeriod := or_number (opts_scanPeriod opts) 1 in
  let refractoryPeriod := or_number (opts_refractoryPeriod opts) (5 * 1000) in
  let scan :=
    ActiveScan.new analyzer captureImage scanPeriod refractoryPeriod in
  Ok (mk video backgroundScan None scan stopped, emit Window.Inactive w).

(** *** The listener registered with [Visibility.change] *)

(** The page reports a new visibility state.  On 'visible' the listener
    only schedules [deferred_activate]; otherwise it deactivates at once. *)
Definition visibility_change (state : string) (this : t) (w : Window.t)
  : result (t * Window.t) :=
  let w := Window.set_visibility state w in
  if (state =? "visible")%string then Ok (this, w)
  else if negb (backgroundScan this) && can deactivate this
       then fsm_deactivate this w
       else Ok (this, w).

(** The callback the listener defers with [setTimeout(..., 0)]. *)
Definition deferred_activate (this : t) (w : Window.t) : result (t * Window.t) :=
  if can activate this then fsm_activate None this w else Ok (this, w).

(** The frame callbacks and the timers of the scan loop, seen from the
    scanner. *)
Definition tick (s : Z * Frame) (this : t) (w : Window.t) : t * Window.t :=
  let '(scan, w) := ActiveScan.tick (_scan this) w s in
  (set_scan scan this, w).

End Scanner.

(** * Vocabulary of the properties *)

(** The state and window [stop] of the machine leaves behind. *)
Definition stopped_from (this : Scanner.t) (w : Window.t)
  : Scanner.t * Window.t :=
  match Scanner._fsm this with
  | Scanner.active =>
      let '(this, w) := Scanner.onleaveactive this w in
      (Scanner.set_fsm Scanner.stopped this, w)
  | _ => (Scanner.set_fsm Scanner.stopped this, w)
  end.

(** The shape of a successful entry into [active] from window [w0]: the
    camera is stored and streaming, its stream is the video source, the scan
    loop is running, and the calls happened in this order, the [active]
    event last. *)
Definition enters_active (c : Camera) (url : string) (w0 : Window.t)
    (r : result (Scanner.t * Window.t)) : Prop :=
  exists this' w',
    r = Ok (this', w') /\
    Scanner._fsm this' = Scanner.active /\
    Scanner._camera this' = Some c /\
    Scanner.src (Scanner.video_ this') = url /\
    ActiveScan._active (Scanner._scan this') = true /\
    In (camera_id c) (Window.streaming w') /\
    Window.trace w' =
      Window.trace w0 ++
        [Window.CameraStart (camera_id c); Window.VideoSrc url;
         Window.RequestAnimationFrame; Window.Emit Window.Active].

(** Lines 44 to 59 of [_scan]: what happens to the analysis of a frame. *)
Definition deliver (f : Frame) (analysis : option (string * Analyzer.canvas))
    (this : ActiveScan.t) (w : Window.t) : ActiveScan.t * Window.t :=
  match analysis with
  | None => (this, w)
  | Some (result, _) =>
      if negb (truthy_string result)
         || strict_eq (ActiveScan.lastResult this) result
      then (this, w)
      else
        let w1 := Window.clearTimeout (ActiveScan.refractoryTimeout this) w in
        let image :=
          if ActiveScan.captureImage this then Some (dataURL f) else None in
        (ActiveScan.set_lastResult (Some result)
           (ActiveScan.set_refractoryTimeout (Some (Window.next_timer w1)) this),
         snd (Window.setTimeout (Window.EmitScan result image) 0
                (snd (Window.setTimeout Window.ClearLastResult
                        (ActiveScan.refractoryPeriod this) w1))))
  end.

(** What a method leaves alone in the window. *)
Definition same_page (w w' : Window.t) : Prop :=
  Window.now w' = Window.now w /\
  Window.visibility w' = Window.visibility w /\
  Window.streaming w' = Window.streaming w.

Definition same_clock (w w' : Window.t) : Prop :=
  Window.timers w' = Window.timers w /\
  Window.next_timer w' = Window.next_timer w.

(** What a frame callback leaves alone in the scan loop. *)
Definition same_config (this this' : ActiveScan.t) : Prop :=
  ActiveScan.scanPeriod this' = ActiveScan.scanPeriod this /\
  ActiveScan.captureImage this' = ActiveScan.captureImage this /\
  ActiveScan.refractoryPeriod this' = ActiveScan.refractoryPeriod this /\
  ActiveScan._active this' = ActiveScan._active this.

Inductive op :=
| OpStart (camera : option Camera)
| OpStop
| OpVisibility (state : string)
| OpDeferredActivate
| OpTick (s : Z * Frame)
| OpSetCaptureImage (capture : bool)
| OpSetScanPeriod (period : Z)
| OpSetRefractoryPeriod (period : Z).

Definition exec (o : op) (this : Scanner.t) (w : Window.t)
  : result (Scanner.t * Window.t) :=
  match o with
  | OpStart camera => Scanner.start camera this w
  | OpStop => Scanner.stop this w
  | OpVisibility state => Scanner.visibility_change state this w
  | OpDeferredActivate => Scanner.deferred_activate this w
  | OpTick s => Ok (Scanner.tick s this w)
  | OpSetCaptureImage capture => Ok (Scanner.set_captureImage capture this, w)
  | OpSetScanPeriod period => Ok (Scanner.set_scanPeriod period this, w)
  | OpSetRefractoryPeriod period =>
      Ok (Scanner.set_refractoryPeriod period this, w)
  end.

(** The camera streams and the scan loop runs exactly while the machine is
    in [active]; the camera that streams is the stored one. *)
Definition Inv (this : Scanner.t) (w : Window.t) : Prop :=
  match Scanner._fsm this with
  | Scanner.active =>
      (exists c, Scanner._camera this = Some c /\
                 Window.streaming w = [camera_id c]) /\
      ActiveScan._active (Scanner._scan this) = true
  | _ =>
      Window.streaming w = [] /\
      ActiveScan._active (Scanner._scan this) = false
  end.

Definition default_opts : Opts := mkOpts None None None None None None.

Definition camera_x : Camera := mkCamera 7 (Some "blob:x"%string).

(** The scanner [new Scanner({})] builds. *)
Definition fresh_scanner : Scanner.t :=
  Scanner.mk (Scanner.mkVideo "" true false) false None
    (ActiveScan.new Analyzer.new false 1 5000) Scanner.stopped.

Definition fresh_window : Window.t :=
  Window.mk 0 [] 0 None [] "visible" [] [Window.Emit Window.Inactive].

(** The fresh scanner after [start(camera_x)] on a visible page. *)
Definition running : Scanner.t * Window.t :=
  Eval vm_compute in
    match Scanner.start (Some camera_x) fresh_scanner fresh_window with
    | Ok p => p
    | Err _ => (fresh_scanner, fresh_window)
    end.

(** The calls logged between two windows. *)
Definition calls_since (w w' : Window.t) : list Window.effect :=
  skipn (List.length (Window.trace w)) (Window.trace w').

(** Calling [analyze] on every frame of a list, in order. *)
Fixpoint analyze_all (fs : list Frame) (an : Analyzer.t) (w : Window.t)
  : list (option (string * Analyzer.canvas)) * Analyzer.t * Window.t :=
  match fs with
  | [] => ([], an, w)
  | f :: rest =>
      let '(r, an, w) := Analyzer.analyze f an w in
      let '(rs, an, w) := analyze_all rest an w in
      (r :: rs, an, w)
  end.

(** The events of a trace, in order. *)
Fixpoint events_of (tr : list Window.effect) : list Window.event :=
  match tr with
  | [] => []
  | Window.Emit e :: rest => e :: events_of rest
  | _ :: rest => events_of rest
  end.

Definition emitted (w : Window.t) : list Window.event :=
  events_of (Window.trace w).

(** The events a list of timers emits when it fires. *)
Fixpoint scans_of (q : list Window.timer) : list Window.event :=
  match q with
  | [] => []
  | tm :: rest =>
      match Window.callback tm with
      | Window.EmitScan result image => Window.Scan result image :: scans_of rest
      | Window.ClearLastResult => scans_of rest
      end
  end.

Definition is_clear (tm : Window.timer) : bool :=
  match Window.callback tm with
  | Window.ClearLastResult => true
  | Window.EmitScan _ _ => false
  end.

(** The timers that fire and those that stay when the clock reaches [t]. *)
Definition ready_at (t : Z) (w : Window.t) : list Window.timer :=
  filter (fun tm => Window.due tm <=? Z.max (Window.now w) t) (Window.timers w).

Definition waiting_at (t : Z) (w : Window.t) : list Window.timer :=
  filter (fun tm => negb (Window.due tm <=? Z.max (Window.now w) t))
         (Window.timers w).

(** The text a frame callback hands to the duplicate check, if it gets that
    far: the loop is active, this is the frame that is analysed, and the
    analysis is not null. *)
Definition decoded (f : Frame) (this : ActiveScan.t) (w : Window.t)
  : option string :=
  if ActiveScan._active this
     && (ActiveScan._frameCount this + 1 =? ActiveScan.scanPeriod this)
  then option_map fst
         (fst (fst (Analyzer.analyze f (ActiveScan._analyzer this)
                      (Window.requestAnimationFrame w))))
  else None.

(** The text the callback accepts: decoded, not empty, and not the last
    result. *)
Definition accepted (f : Frame) (this : ActiveScan.t) (w : Window.t)
  : option string :=
  match decoded f this w with
  | Some result =>
      if negb (truthy_string result)
         || strict_eq (ActiveScan.lastResult this) result
      then None else Some result
  | None => None
  end.

(** The state of the duplicate check and what it has sent out. *)
Definition same_suppressor (st st' : ActiveScan.t * Window.t) : Prop :=
  ActiveScan.lastResult (fst st') = ActiveScan.lastResult (fst st) /\
  ActiveScan.refractoryTimeout (fst st') = ActiveScan.refractoryTimeout (fst st) /\
  Window.timers (snd st') = Window.timers (snd st) /\
  Window.next_timer (snd st') = Window.next_timer (snd st) /\
  emitted (snd st') = emitted (snd st).

(** No scan event with empty text has been emitted or is waiting to be. *)
Definition no_empty_scan (w : Window.t) : Prop :=
  (forall image, ~ In (Window.Scan "" image) (emitted w)) /\
  (forall tm image,
     In tm (Window.timers w) ->
     Window.callback tm <> Window.EmitScan "" image).

(** A frame whose decode succeeds with the single empty chunk. *)
Definition empty_frame : Frame :=
  mkFrame 2 2 [0; 0; 0; 255] 1024 0 [(""%string, 0)] "data:image/webp;empty".

(** How often [analyze] has been called. *)
Fixpoint count_analyze (tr : list Window.effect) : Z :=
  match tr with
  | [] => 0
  | Window.Analyze :: rest => 1 + count_analyze rest
  | _ :: rest => count_analyze rest
  end.

Definition analyses (w : Window.t) : Z := count_analyze (Window.trace w).

(** A frame of a 2 by 2 video in which the decoder reads "X". *)
Definition frame_x : Frame :=
  mkFrame 2 2 [10; 0; 0; 255; 20; 0; 0; 255; 30; 0; 0; 255; 40; 0; 0; 255]
    1024 0 [("X"%string, 0)] "data:image/webp;x".

(** The scanner built with [scanPeriod: 10] and started on a visible
    page. *)
Definition ten_frame_scanner : Scanner.t * Window.t :=
  Eval vm_compute in
    match Scanner.new (mkOpts None None None None (Some 10) None)
            (Window.fresh "visible") with
    | Ok (this, w) =>
        match Scanner.start (Some camera_x) this w with
        | Ok p => p
        | Err _ => (this, w)
        end
    | Err _ => (fresh_scanner, fresh_window)
    end.

(** Five frame callbacks later, [scanner.scanPeriod = 3] is assigned. *)
Definition lowered : Scanner.t * Window.t :=
  let '(this, w) :=
    fold_left (fun st s => Scanner.tick s (fst st) (snd st))
      (map (fun t => (t, frame_x)) [16; 33; 50; 66; 83]) ten_frame_scanner in
  (Scanner.set_scanPeriod 3 this, w).

(** What holds of the timer queue of a scan loop: the pending expiry timer
    is the one [refractoryTimeout] names and no other timer has that id,
    every emission is due, and ids below [next_timer] only are in use. *)
Definition wf (this : ActiveScan.t) (w : Window.t) : Prop :=
  forall tm,
    In tm (Window.timers w) ->
    (is_clear tm = true <->
     ActiveScan.refractoryTimeout this = Some (Window.timer_id tm)) /\
    (is_clear tm = false -> Window.due tm <= Window.now w) /\
    (Window.timer_id tm < Window.next_timer w)%nat.

(** Scan events emitted, followed by those whose emission is queued. *)
Definition outbox (this : ActiveScan.t) (w : Window.t) : list Window.event :=
  emitted w ++ scans_of (Window.timers w).

Definition expiries (w : Window.t) : list Window.timer :=
  filter is_clear (Window.timers w).

(** Between an acceptance of [r] and the expiry [c] of its timer. *)
Definition armed (r : string) (c : Window.timer) (this : ActiveScan.t)
    (w : Window.t) : Prop :=
  wf this w /\
  ActiveScan.lastResult this = Some r /\
  expiries w = [c].

(** Every tick of the schedule decodes nothing, the empty string, or [r]. *)
Fixpoint only_repeats (r : string) (sched : list (Z * Frame))
    (this : ActiveScan.t) (w : Window.t) : Prop :=
  match sched with
  | [] => True
  | s :: rest =>
      let st0 := ActiveScan.advance (fst s) this w in
      let d := decoded (snd s) (fst st0) (snd st0) in
      (d = None \/ d = Some ""%string \/ d = Some r) /\
      only_repeats r rest (fst (ActiveScan.tick this w s))
        (snd (ActiveScan.tick this w s))
  end.

(** The scan loop of a scanner built with [refractoryPeriod: 100], started
    on a visible page, after the frame callback that allocated the buffer. *)
Definition primed : ActiveScan.t * Window.t :=
  Eval vm_compute in
    match Scanner.new (mkOpts None None None None None (Some 100))
            (Window.fresh "visible") with
    | Ok (this, w) =>
        match Scanner.start (Some camera_x) this w with
        | Ok (this, w) => ActiveScan.tick (Scanner._scan this) w (0, frame_x)
        | Err _ => (Scanner._scan this, w)
        end
    | Err _ => (Scanner._scan fresh_scanner, fresh_window)
    end.

Definition frame_a : Frame :=
  mkFrame 2 2 [1; 0; 0; 255] 1024 0 [("A"%string, 0)] "data:image/webp;a".

Definition frame_b : Frame :=
  mkFrame 2 2 [2; 0; 0; 255] 1024 0 [("B"%string, 0)] "data:image/webp;b".

(** The stronger reading, without the proviso: after [r] is accepted, every
    tick that decodes [r] within one refractory period of that acceptance,
    whatever was decoded in between, is rejected. *)
Definition suppresses_every_repeat : Prop :=
  forall (this : ActiveScan.t) (w : Window.t) (s0 : Z * Frame) (r : string)
         (mid : list (Z * Frame)) (s1 : Z * Frame),
    wf this w ->
    let st0 := ActiveScan.advance (fst s0) this w in
    accepted (snd s0) (fst st0) (snd st0) = Some r ->
    let st1 := ActiveScan.tick this w s0 in
    let t0 := Window.now (snd st0) in
    let d := t0 + Z.max 0 (ActiveScan.refractoryPeriod (fst st0)) in
    Forall (fun s => t0 <= fst s < d) mid ->
    t0 <= fst s1 < d ->
    let st2 := ActiveScan.run mid (fst st1) (snd st1) in
    let st3 := ActiveScan.advance (fst s1) (fst st2) (snd st2) in
    decoded (snd s1) (fst st3) (snd st3) = Some r ->
    accepted (snd s1) (fst st3) (snd st3) = None.

(** Running a list of operations, up to the first that rejects. *)
Fixpoint exec_all (ops : list op) (this : Scanner.t) (w : Window.t)
  : result (Scanner.t * Window.t) :=
  match ops with
  | [] => Ok (this, w)
  | o :: rest => await (this, w) <- exec o this w; exec_all rest this w
  end.

(** The operations that drive the state machine. *)
Definition is_lifecycle (o : op) : bool :=
  match o with
  | OpStart _ | OpStop | OpVisibility _ | OpDeferredActivate => true
  | _ => false
  end.

(** The last [active] or [inactive] event of a list of events. *)
Definition last_status (evs : list Window.event) : option Window.event :=
  fold_left
    (fun acc e => match e with Window.Scan _ _ => acc | _ => Some e end)
    evs None.

(** How often an animation frame has been requested. *)
Fixpoint count_frames (tr : list Window.effect) : Z :=
  match tr with
  | [] => 0
  | Window.RequestAnimationFrame :: rest => 1 + count_frames rest
  | _ :: rest => count_frames rest
  end.

Definition frames_requested (w : Window.t) : Z := count_frames (Window.trace w).

(** [HEAPU8[addr]]: the latest store to the address. *)
Fixpoint load (addr : Z) (heap : list (Z * Z)) : option Z :=
  match heap with
  | [] => None
  | (a, v) :: rest => if a =? addr then Some v else load addr rest
  end.

(** The texts of a list of chunks, one after the other. *)
Definition join (chunks : list (string * Z)) : string :=
  fold_right (fun c acc => (fst c ++ acc)%string) ""%string chunks.

(** What the loop keeps apart from whether it is active. *)
Definition same_loop (a b : ActiveScan.t) : Prop :=
  ActiveScan.scanPeriod b = ActiveScan.scanPeriod a /\
  ActiveScan.captureImage b = ActiveScan.captureImage a /\
  ActiveScan.refractoryPeriod b = ActiveScan.refractoryPeriod a /\
  ActiveScan._frameCount b = ActiveScan._frameCount a /\
  ActiveScan._analyzer b = ActiveScan._analyzer a /\
  ActiveScan.lastResult b = ActiveScan.lastResult a /\
  ActiveScan.refractoryTimeout b = ActiveScan.refractoryTimeout a.

(** What the decoder and the timers see of the window. *)
Definition same_decoder (w w' : Window.t) : Prop :=
  Window.now w' = Window.now w /\
  Window.timers w' = Window.timers w /\
  Window.next_timer w' = Window.next_timer w /\
  Window.zxDecodeResult w' = Window.zxDecodeResult w /\
  Window.HEAPU8 w' = Window.HEAPU8 w.

(** The event that announces the state the machine rests in. *)
Definition status_event (this : Scanner.t) : Window.event :=
  if Scanner.state_eqb (Scanner._fsm this) Scanner.active
  then Window.Active else Window.Inactive.

(** What every completed operation keeps: the machine does not rest in
    [started], the invariant of the camera holds, and the last status event
    names the state. *)
Definition settled (this : Scanner.t) (w : Window.t) : Prop :=
  Scanner._fsm this <> Scanner.started /\
  Inv this w /\
  last_status (emitted w) = Some (status_event this).

(** A short session: start, one frame, the page is hidden and shown again. *)
Definition session : list op :=
  [OpStart (Some camera_x); OpTick (10, frame_x); OpVisibility "hidden";
   OpVisibility "visible"; OpDeferredActivate].

Definition session_end : Scanner.t * Window.t :=
  Eval vm_compute in
    match exec_all session fresh_scanner fresh_window with
    | Ok p => p
    | Err _ => (fresh_scanner, fresh_window)
    end.

(** A frame whose decode hands over the text in two chunks. *)
Definition frame_two_chunks : Frame :=
  mkFrame 2 2 [1; 0; 0; 255] 1024 0
    [("HEL"%string, 0); ("LO"%string, 1)] "data:image/webp;hello".

(** A frame whose decode fails after handing over a chunk. *)
Definition frame_failed : Frame :=
  mkFrame 2 2 [1; 0; 0; 255] 1024 1 [("OLD"%string, 0)] "data:image/webp;old".

(** A frame whose decode reports success without calling back. *)
Definition frame_silent : Frame :=
  mkFrame 2 2 [1; 0; 0; 255] 1024 0 [] "data:image/webp;silent".

(** The analyzer of the loop after its first analysed frame. *)
Definition allocated : Analyzer.t := ActiveScan._analyzer (fst primed).


(** * Properties *)

(** ** The state machine *)

Lemma can_activate_iff (this : Scanner.t) :
  Scanner.can Scanner.activate this = true <->
  Scanner._fsm this = Scanner.started \/ Scanner._fsm this = Scanner.inactive.
Proof.
  unfold Scanner.can, Scanner.lookup.
  destruct (Scanner._fsm this); cbn; split; intros H; auto;
    try discriminate; destruct H; discriminate.
Qed.

Lemma can_stop_iff (this : Scanner.t) :
  Scanner.can Scanner.stop_ this = true <-> Scanner._fsm this <> Scanner.stopped.
Proof.
  unfold Scanner.can, Scanner.lookup.
  destruct (Scanner._fsm this); cbn; split; intros H; auto;
    try discriminate; contradiction.
Qed.

Lemma can_start_iff (this : Scanner.t) :
  Scanner.can Scanner.start_ this = true <-> Scanner._fsm this = Scanner.stopped.
Proof.
  unfold Scanner.can, Scanner.lookup.
  destruct (Scanner._fsm this); cbn; split; intros H; auto; discriminate.
Qed.

(** What [activate] does from one of its two source states. *)
Lemma fsm_activate_eq (cam : option Camera) (this : Scanner.t) (w : Window.t) :
  Scanner._fsm this = Scanner.started \/ Scanner._fsm this = Scanner.inactive ->
  Scanner.fsm_activate cam this w =
    if Window.page_visible w || Scanner.backgroundScan this
    then Scanner.onenteractive cam (Scanner.set_fsm Scanner.active this) w
    else Ok (Scanner.set_fsm Scanner.inactive this, w).
Proof.
  intros H. unfold Scanner.fsm_activate, Scanner.fire, Scanner.lookup.
  destruct H as [H | H]; rewrite H; cbn; unfold Scanner.condition;
    destruct (Window.page_visible w || Scanner.backgroundScan this); cbn;
    try reflexivity;
    destruct (Scanner.onenteractive cam _ w) as [[? ?] | ?]; reflexivity.
Qed.



(** [_enableScan] with a camera that can be resolved and whose [start()]
    resolves. *)
Lemma enableScan_ok cam this w c url :
  Scanner.resolve cam (Scanner._camera this) = Some c ->
  stream c = Some url ->
  Scanner._enableScan cam this w =
    Ok (Scanner.set_scan
          (ActiveScan.set_active true (Scanner._scan this))
          (Scanner.set_video_src url (Scanner.set_camera (Some c) this)),
        Window.requestAnimationFrame
          (Window.log (Window.VideoSrc url)
             (Window.set_streaming
                (camera_id c :: Window.streaming w)
                (Window.log (Window.CameraStart (camera_id c)) w)))).
Proof.
  intros Hr Hs. unfold Scanner._enableScan. cbn. rewrite Hr.
  unfold Scanner.camera_start. rewrite Hs. reflexivity.
Qed.


(** [start] and [stop] of the machine, from the states that allow them. *)
Lemma fsm_start_eq (cam : option Camera) (this : Scanner.t) (w : Window.t) :
  Scanner._fsm this = Scanner.stopped ->
  Scanner.fsm_start cam this w =
    Scanner.fsm_activate cam (Scanner.set_fsm Scanner.started this) w.
Proof.
  intros H. unfold Scanner.fsm_start, Scanner.fire at 1, Scanner.lookup.
  rewrite H. reflexivity.
Qed.

Lemma fsm_stop_eq (this : Scanner.t) (w : Window.t) :
  Scanner._fsm this <> Scanner.stopped ->
  Scanner.fsm_stop this w = Ok (stopped_from this w).
Proof.
  intros H. unfold Scanner.fsm_stop, Scanner.fire, Scanner.lookup, stopped_from.
  destruct (Scanner._fsm this) eqn:E; try contradiction; cbn;
    try reflexivity.
  destruct (Scanner.onleaveactive this w); reflexivity.
Qed.

Lemma stopped_from_facts (this : Scanner.t) (w : Window.t) :
  Scanner._fsm (fst (stopped_from this w)) = Scanner.stopped /\
  Scanner._camera (fst (stopped_from this w)) = Scanner._camera this /\
  Scanner.backgroundScan (fst (stopped_from this w)) = Scanner.backgroundScan this /\
  Window.visibility (snd (stopped_from this w)) = Window.visibility w.
Proof.
  unfold stopped_from, Scanner.onleaveactive, Scanner._disableScan.
  destruct this as [v bg cam scan st]; cbn.
  destruct st; cbn; try (repeat split; reflexivity).
  destruct cam; cbn; repeat split; reflexivity.
Qed.

Lemma start_eq (cam : option Camera) (this : Scanner.t) (w : Window.t) :
  Scanner.start cam this w =
    if Scanner.state_eqb (Scanner._fsm this) Scanner.stopped
    then Scanner.fsm_activate cam (Scanner.set_fsm Scanner.started this) w
    else Scanner.fsm_activate cam
           (Scanner.set_fsm Scanner.started (fst (stopped_from this w)))
           (snd (stopped_from this w)).
Proof.
  unfold Scanner.start.
  destruct (Scanner.can Scanner.start_ this) eqn:Hc.
  - apply can_start_iff in Hc. rewrite Hc. cbn. apply fsm_start_eq, Hc.
  - assert (Hn : Scanner._fsm this <> Scanner.stopped).
    { intros E. apply can_start_iff in E. congruence. }
    rewrite (fsm_stop_eq this w Hn).
    destruct (stopped_from this w) as [s1 w1] eqn:Es. cbn.
    pose proof (stopped_from_facts this w) as (Hst & _). rewrite Es in Hst.
    cbn in Hst. rewrite (fsm_start_eq cam s1 w1 Hst).
    destruct (Scanner._fsm this); cbn; try reflexivity; contradiction.
Qed.

Lemma activate_without_camera cam this w :
  Scanner._fsm this = Scanner.started \/ Scanner._fsm this = Scanner.inactive ->
  Window.page_visible w || Scanner.backgroundScan this = true ->
  Scanner.resolve cam (Scanner._camera this) = None ->
  Scanner.fsm_activate cam this w = Err CameraNotDefined.
Proof.
  intros Hf Hv Hr. rewrite (fsm_activate_eq cam this w Hf), Hv.
  unfold Scanner.onenteractive, Scanner._enableScan. cbn. rewrite Hr. reflexivity.
Qed.

Lemma activate_with_camera cam this w c url :
  Scanner._fsm this = Scanner.started \/ Scanner._fsm this = Scanner.inactive ->
  Window.page_visible w || Scanner.backgroundScan this = true ->
  Scanner.resolve cam (Scanner._camera this) = Some c ->
  stream c = Some url ->
  enters_active c url w (Scanner.fsm_activate cam this w).
Proof.
  intros Hf Hv Hr Hs. rewrite (fsm_activate_eq cam this w Hf), Hv.
  unfold Scanner.onenteractive.
  rewrite (enableScan_ok cam _ w c url); [| exact Hr | exact Hs].
  cbn. eexists; eexists. split; [reflexivity |].
  cbn. repeat split; auto.
  repeat rewrite <- app_assoc. reflexivity.
Qed.


(** ** The scan loop, case by case *)

Lemma scan_idle f this w :
  ActiveScan._active this = false -> ActiveScan._scan f this w = (this, w).
Proof. intros H. unfold ActiveScan._scan. rewrite H. reflexivity. Qed.

Lemma scan_skip f this w :
  ActiveScan._active this = true ->
  ActiveScan._frameCount this + 1 <> ActiveScan.scanPeriod this ->
  ActiveScan._scan f this w =
    (ActiveScan.set_frameCount (ActiveScan._frameCount this + 1) this,
     Window.requestAnimationFrame w).
Proof.
  intros Ha Hn. unfold ActiveScan._scan. rewrite Ha. cbn.
  apply Z.eqb_neq in Hn. rewrite Hn. reflexivity.
Qed.

Lemma scan_analyze f this w :
  ActiveScan._active this = true ->
  ActiveScan._frameCount this + 1 = ActiveScan.scanPeriod this ->
  ActiveScan._scan f this w =
    let r := Analyzer.analyze f (ActiveScan._analyzer this)
               (Window.requestAnimationFrame w) in
    deliver f (fst (fst r))
      (ActiveScan.set_analyzer (snd (fst r)) (ActiveScan.set_frameCount 0 this))
      (snd r).
Proof.
  intros Ha He. unfold ActiveScan._scan. rewrite Ha. cbn.
  apply Z.eqb_eq in He. rewrite He. cbn.
  destruct (Analyzer.analyze f (ActiveScan._analyzer this)
              (Window.requestAnimationFrame w)) as [[a an] w1].
  cbn. destruct a as [[result c] |]; [| reflexivity].
  cbn. destruct (negb (truthy_string result)
                 || strict_eq (ActiveScan.lastResult this) result);
    reflexivity.
Qed.

Lemma analyze_same_page f an w :
  same_page w (snd (Analyzer.analyze f an w)) /\
  same_clock w (snd (Analyzer.analyze f an w)).
Proof.
  unfold Analyzer.analyze, same_page, same_clock.
  destruct (negb (truthy_number (videoWidth f))); cbn; [tauto |].
  destruct (negb (Analyzer.has_buffer an)); cbn; [tauto |].
  destruct (truthy_number (decode_status f)); cbn; [tauto |].
  destruct (fold_left Analyzer.decodeCallback (decode_chunks f)
              (Window.zxDecodeResult w)); cbn; tauto.
Qed.

Lemma deliver_same f a this w :
  same_page w (snd (deliver f a this w)) /\
  same_config this (fst (deliver f a this w)) /\
  ActiveScan._frameCount (fst (deliver f a this w)) = ActiveScan._frameCount this /\
  ActiveScan._analyzer (fst (deliver f a this w)) = ActiveScan._analyzer this.
Proof.
  unfold deliver, same_page, same_config.
  destruct a as [[result c] |]; cbn; [| tauto].
  destruct (negb (truthy_string result)
            || strict_eq (ActiveScan.lastResult this) result); cbn; [tauto |].
  destruct (ActiveScan.refractoryTimeout this); cbn; tauto.
Qed.

Lemma scan_same f this w :
  same_page w (snd (ActiveScan._scan f this w)) /\
  same_config this (fst (ActiveScan._scan f this w)).
Proof.
  destruct (ActiveScan._active this) eqn:Ha.
  - destruct (Z.eq_dec (ActiveScan._frameCount this + 1)
                (ActiveScan.scanPeriod this)) as [He | Hn].
    + rewrite (scan_analyze f this w Ha He). cbv zeta.
      set (r := Analyzer.analyze f _ _).
      pose proof (deliver_same f (fst (fst r))
                    (ActiveScan.set_analyzer (snd (fst r))
                       (ActiveScan.set_frameCount 0 this)) (snd r))
        as ((H1 & H2 & H3) & (H4 & H5 & H6 & H7) & _).
      pose proof (analyze_same_page f (ActiveScan._analyzer this)
                    (Window.requestAnimationFrame w)) as ((G1 & G2 & G3) & _).
      fold r in G1, G2, G3. unfold same_page, same_config.
      rewrite H1, H2, H3, H4, H5, H6, H7, G1, G2, G3. cbn. tauto.
    + rewrite (scan_skip f this w Ha Hn). unfold same_page, same_config.
      cbn. tauto.
  - rewrite (scan_idle f this w Ha). unfold same_page, same_config. tauto.
Qed.

(** Firing timers touches only [lastResult] and the trace. *)
Lemma run_tasks_same (ready : list Window.timer) :
  forall this w,
    let r := fold_left ActiveScan.run_task ready (this, w) in
    same_config this (fst r) /\
    ActiveScan._frameCount (fst r) = ActiveScan._frameCount this /\
    ActiveScan._analyzer (fst r) = ActiveScan._analyzer this /\
    ActiveScan.refractoryTimeout (fst r) = ActiveScan.refractoryTimeout this /\
    same_page w (snd r) /\ same_clock w (snd r).
Proof.
  unfold same_config, same_page, same_clock.
  induction ready as [| tm ready IH]; intros this w; cbn.
  - tauto.
  - destruct (Window.callback tm) as [| result image].
    + specialize (IH (ActiveScan.set_lastResult None this) w). cbn in IH. tauto.
    + specialize (IH this (Window.log (Window.Emit (Window.Scan result image)) w)).
      cbn in IH. tauto.
Qed.

Lemma advance_same t this w :
  let r := ActiveScan.advance t this w in
  same_config this (fst r) /\
  ActiveScan._frameCount (fst r) = ActiveScan._frameCount this /\
  ActiveScan._analyzer (fst r) = ActiveScan._analyzer this /\
  ActiveScan.refractoryTimeout (fst r) = ActiveScan.refractoryTimeout this /\
  Window.now (snd r) = Z.max (Window.now w) t /\
  Window.visibility (snd r) = Window.visibility w /\
  Window.streaming (snd r) = Window.streaming w /\
  Window.next_timer (snd r) = Window.next_timer w.
Proof.
  unfold ActiveScan.advance.
  destruct (partition _ (Window.timers w)) as [ready waiting].
  pose proof (run_tasks_same ready this
                (Window.set_now (Z.max (Window.now w) t)
                   (Window.set_timers waiting (Window.next_timer w) w)))
    as (H1 & H2 & H3 & H4 & (H5 & H6 & H7) & (_ & H8)).
  cbv zeta in *. cbn in H5, H6, H7, H8. tauto.
Qed.

Lemma tick_same this w s :
  let r := ActiveScan.tick this w s in
  same_config this (fst r) /\
  Window.visibility (snd r) = Window.visibility w /\
  Window.streaming (snd r) = Window.streaming w.
Proof.
  unfold ActiveScan.tick.
  pose proof (advance_same (fst s) this w) as (H1 & _ & _ & _ & _ & H2 & H3 & _).
  cbv zeta in *.
  destruct (ActiveScan.advance (fst s) this w) as [this1 w1]. cbn in *.
  pose proof (scan_same (snd s) this1 w1) as ((_ & G2 & G3) & G4).
  unfold same_config in *. rewrite G2, G3, H2, H3. intuition congruence.
Qed.

(** ** What the scanner does, and what stays true throughout *)

Lemma Inv_new opts w this w' :
  Window.streaming w = [] ->
  Scanner.new opts w = Ok (this, w') -> Inv this w'.
Proof.
  intros Hw. unfold Scanner.new.
  destruct (Scanner._configureVideo opts); cbn; [| discriminate].
  intros H. injection H as <- <-. unfold Inv. cbn. auto.
Qed.

Lemma Inv_stopped_from this w :
  Inv this w -> Inv (fst (stopped_from this w)) (snd (stopped_from this w)).
Proof.
  unfold Inv, stopped_from, Scanner.onleaveactive, Scanner._disableScan.
  destruct this as [v bg cam scan st]; cbn.
  destruct st; cbn; auto.
  intros ((c & -> & Hs) & _). cbn. rewrite Hs. cbn.
  rewrite Nat.eqb_refl. cbn. auto.
Qed.

Lemma Inv_activate cam this w this' w' :
  Scanner._fsm this = Scanner.started \/ Scanner._fsm this = Scanner.inactive ->
  Inv this w ->
  Scanner.fsm_activate cam this w = Ok (this', w') -> Inv this' w'.
Proof.
  intros Hf HI. rewrite (fsm_activate_eq cam this w Hf).
  assert (Hs : Window.streaming w = [] /\
               ActiveScan._active (Scanner._scan this) = false).
  { unfold Inv in HI. destruct Hf as [Hf | Hf]; rewrite Hf in HI; exact HI. }
  destruct (Window.page_visible w || Scanner.backgroundScan this).
  - unfold Scanner.onenteractive, Scanner._enableScan. cbn.
    destruct (Scanner.resolve cam (Scanner._camera this)) as [c |]; [| discriminate].
    unfold Scanner.camera_start. destruct (stream c) as [url |]; [| discriminate].
    cbn. intros H. injection H as <- <-. unfold Inv. cbn.
    destruct Hs as [-> _]. split; [exists c |]; auto.
  - intros H. injection H as <- <-. unfold Inv. cbn. exact Hs.
Qed.

Lemma Inv_start cam this w this' w' :
  Inv this w -> Scanner.start cam this w = Ok (this', w') -> Inv this' w'.
Proof.
  intros HI. rewrite start_eq.
  destruct (Scanner.state_eqb (Scanner._fsm this) Scanner.stopped) eqn:E.
  - apply Inv_activate; [left; reflexivity |].
    unfold Inv in *. cbn. destruct (Scanner._fsm this); try discriminate. exact HI.
  - apply Inv_activate; [left; reflexivity |].
    apply Inv_stopped_from in HI.
    pose proof (stopped_from_facts this w) as (Hst & _).
    unfold Inv in *. cbn. rewrite Hst in HI. exact HI.
Qed.

Lemma stop_eq this w :
  Scanner.stop this w =
    if Scanner.state_eqb (Scanner._fsm this) Scanner.stopped then Ok (this, w)
    else Ok (stopped_from this w).
Proof.
  unfold Scanner.stop. destruct (Scanner.can Scanner.stop_ this) eqn:Hc.
  - apply can_stop_iff in Hc. rewrite (fsm_stop_eq this w Hc).
    destruct (Scanner._fsm this); cbn; try reflexivity; contradiction.
  - destruct (Scanner._fsm this) eqn:E; cbn; try reflexivity;
      unfold Scanner.can, Scanner.lookup in Hc; rewrite E in Hc; discriminate.
Qed.

Lemma Inv_stop this w this' w' :
  Inv this w -> Scanner.stop this w = Ok (this', w') -> Inv this' w'.
Proof.
  intros HI. rewrite stop_eq.
  destruct (Scanner.state_eqb (Scanner._fsm this) Scanner.stopped).
  - intros H. injection H as <- <-. exact HI.
  - intros H. apply Inv_stopped_from in HI.
    destruct (stopped_from this w). injection H as <- <-. exact HI.
Qed.

Lemma Inv_set_visibility state this w :
  Inv this w -> Inv this (Window.set_visibility state w).
Proof. unfold Inv. destruct (Scanner._fsm this); cbn; auto. Qed.

Lemma Inv_visibility_change state this w this' w' :
  Inv this w ->
  Scanner.visibility_change state this w = Ok (this', w') -> Inv this' w'.
Proof.
  intros HI. unfold Scanner.visibility_change.
  apply (Inv_set_visibility state) in HI.
  destruct (state =? "visible")%string.
  - intros H. injection H as <- <-. exact HI.
  - destruct (negb (Scanner.backgroundScan this)
              && Scanner.can Scanner.deactivate this) eqn:E.
    + revert HI. generalize (Window.set_visibility state w) as w0.
      intros w0. unfold Inv, Scanner.fsm_deactivate, Scanner.fire, Scanner.lookup,
        Scanner.can, Scanner.onleaveactive, Scanner._disableScan in *.
      destruct this as [v bg cam scan st]; cbn in *.
      destruct st; cbn in *; try (rewrite andb_false_r in E; discriminate).
      * intros HI H. injection H as <- <-. cbn. exact HI.
      * intros ((c & -> & Hs) & _) H. cbn in H. injection H as <- <-.
        cbn. rewrite Hs. cbn. rewrite Nat.eqb_refl. cbn. auto.
    + intros H. injection H as <- <-. exact HI.
Qed.

Lemma Inv_deferred_activate this w this' w' :
  Inv this w ->
  Scanner.deferred_activate this w = Ok (this', w') -> Inv this' w'.
Proof.
  intros HI. unfold Scanner.deferred_activate.
  destruct (Scanner.can Scanner.activate this) eqn:E.
  - apply can_activate_iff in E. apply Inv_activate; assumption.
  - intros H. injection H as <- <-. exact HI.
Qed.

Lemma Inv_tick s this w :
  Inv this w ->
  Inv (fst (Scanner.tick s this w)) (snd (Scanner.tick s this w)).
Proof.
  unfold Scanner.tick.
  pose proof (tick_same (Scanner._scan this) w s) as ((_ & _ & _ & Ha) & _ & Hs).
  cbv zeta in *.
  destruct (ActiveScan.tick (Scanner._scan this) w s) as [scan w1]. cbn in *.
  unfold Inv. cbn. rewrite Ha, Hs. auto.
Qed.

(** The invariant survives every operation that completes. *)
Lemma Inv_exec (o : op) this w this' w' :
  Inv this w -> exec o this w = Ok (this', w') -> Inv this' w'.
Proof.
  intros HI. destruct o; cbn.
  - apply Inv_start, HI.
  - apply Inv_stop, HI.
  - apply Inv_visibility_change, HI.
  - apply Inv_deferred_activate, HI.
  - intros H. pose proof (Inv_tick s this w HI) as HT.
    destruct (Scanner.tick s this w). injection H as <- <-. exact HT.
  - intros H. injection H as <- <-. exact HI.
  - intros H. injection H as <- <-. exact HI.
  - intros H. injection H as <- <-. exact HI.
Qed.

(** ** Sample objects *)

Lemma fresh_scanner_is_new :
  Scanner.new default_opts (Window.fresh "visible") =
    Ok (fresh_scanner, fresh_window).
Proof. reflexivity. Qed.

Lemma Inv_fresh : Inv fresh_scanner fresh_window.
Proof. unfold Inv. cbn. auto. Qed.

(** ** Stopping and restarting *)





Lemma running_is_started :
  Scanner.start (Some camera_x) fresh_scanner fresh_window = Ok running.
Proof. reflexivity. Qed.





(** ** The constructor's defaults *)

(** C10: a zero [scanPeriod] or [refractoryPeriod] in [opts] is replaced by
    the default (1 frame, 5000 ms), so no constructed scanner has a zero
    refractory period; the setter stores a zero as it is. *)
Theorem constructor_discards_zero_periods :
  forall (opts : Opts) (w : Window.t) (this : Scanner.t) (w' : Window.t),
    Scanner.new opts w = Ok (this, w') ->
    (opts_scanPeriod opts = Some 0 -> Scanner.scanPeriod this = 1) /\
    (opts_refractoryPeriod opts = Some 0 ->
     Scanner.refractoryPeriod this = 5000) /\
    Scanner.scanPeriod this <> 0 /\
    Scanner.refractoryPeriod this <> 0 /\
    Scanner.refractoryPeriod (Scanner.set_refractoryPeriod 0 this) = 0.
Proof.
  intros opts w this w'. unfold Scanner.new.
  destruct (Scanner._configureVideo opts) as [v | e]; cbn; [| discriminate].
  intros H. injection H as <- _.
  unfold Scanner.scanPeriod, Scanner.refractoryPeriod. cbn.
  repeat split.
  - intros ->. reflexivity.
  - intros ->. reflexivity.
  - unfold or_number, truthy_number.
    destruct (opts_scanPeriod opts) as [z |]; [| discriminate].
    destruct (z =? 0) eqn:E; cbn; [discriminate |]. apply Z.eqb_neq, E.
  - unfold or_number, truthy_number.
    destruct (opts_refractoryPeriod opts) as [z |]; [| discriminate].
    destruct (z =? 0) eqn:E; cbn; [discriminate |]. apply Z.eqb_neq, E.
Qed.

Lemma constructor_discards_zero_periods_witness :
  exists this w',
    Scanner.new (mkOpts None None None None (Some 0) (Some 0))
      (Window.fresh "visible") = Ok (this, w') /\
    Scanner.scanPeriod this = 1 /\
    Scanner.refractoryPeriod this = 5000.
Proof.
  eexists; eexists. split; [reflexivity |].
  destruct (constructor_discards_zero_periods
              (mkOpts None None None None (Some 0) (Some 0))
              (Window.fresh "visible") _ _ eq_refl) as (H1 & H2 & _).
  split; [exact (H1 eq_refl) | exact (H2 eq_refl)].
Defined.

(** ** The analyzer *)

Lemma skipn_length_app {A} (l x : list A) : skipn (List.length l) (l ++ x) = x.
Proof. induction l as [| a l IH]; cbn; auto. Qed.

Lemma analyze_no_width f an w :
  videoWidth f = 0 ->
  Analyzer.analyze f an w = (None, an, Window.log Window.Analyze w).
Proof. intros H. unfold Analyzer.analyze. rewrite H. reflexivity. Qed.

Lemma analyze_allocates f an w :
  videoWidth f <> 0 ->
  Analyzer.has_buffer an = false ->
  Analyzer.analyze f an w =
    (None,
     Analyzer.mk (Some (resized f)) (Some 0) (Some 0)
       (Some (videoWidth f)) (Some (videoHeight f))
       (Analyzer.mkCanvas (Some (videoWidth f)) (Some (videoHeight f))) true,
     Window.log (Window.Resize (videoWidth f) (videoHeight f))
       (Window.log Window.Analyze w)).
Proof.
  intros Hw Hb. unfold Analyzer.analyze, truthy_number.
  apply Z.eqb_neq in Hw. rewrite Hw, Hb. cbn.
  rewrite !Z.sub_diag. reflexivity.
Qed.

Lemma analyze_decodes f an w :
  videoWidth f <> 0 ->
  Analyzer.has_buffer an = true ->
  let acc := fold_left Analyzer.decodeCallback (decode_chunks f)
               (Window.zxDecodeResult w) in
  fst (Analyzer.analyze f an w) =
    (match acc with
     | Some result =>
         if truthy_number (decode_status f) then None
         else Some (result, Analyzer.canvas_ an)
     | None => None
     end, an) /\
  Window.zxDecodeResult (snd (Analyzer.analyze f an w)) = acc /\
  Window.trace (snd (Analyzer.analyze f an w)) =
    Window.trace w ++
      [Window.Analyze;
       Window.DrawImage (Analyzer.sensorLeft an) (Analyzer.sensorTop an)
         (Analyzer.sensorWidth an) (Analyzer.sensorHeight an);
       Window.GetImageData (Analyzer.sensorWidth an) (Analyzer.sensorHeight an);
       Window.DecodeQr].
Proof.
  intros Hw Hb acc. subst acc. unfold Analyzer.analyze, truthy_number.
  apply Z.eqb_neq in Hw. rewrite Hw, Hb. cbn.
  destruct (negb (decode_status f =? 0)); cbn;
    destruct (fold_left Analyzer.decodeCallback (decode_chunks f)
                (Window.zxDecodeResult w)); cbn;
    repeat rewrite <- app_assoc; auto.
Qed.

Lemma analyze_all_no_width (fs : list Frame) :
  forall an w,
    Forall (fun f => videoWidth f = 0) fs ->
    analyze_all fs an w =
      (repeat None (List.length fs), an,
       fold_left (fun w _ => Window.log Window.Analyze w) fs w).
Proof.
  induction fs as [| f fs IH]; intros an w H; cbn; [reflexivity |].
  inversion H as [| ? ? Hf Hrest]; subst.
  rewrite (analyze_no_width f an w Hf), (IH an _ Hrest). reflexivity.
Qed.

Lemma log_only_analyze (fs : list Frame) :
  forall w,
    let w' := fold_left (fun w _ => Window.log Window.Analyze w) fs w in
    Window.trace w' = Window.trace w ++ repeat Window.Analyze (List.length fs) /\
    Window.HEAPU8 w' = Window.HEAPU8 w /\
    Window.zxDecodeResult w' = Window.zxDecodeResult w.
Proof.
  induction fs as [| f fs IH]; intros w; cbn.
  - rewrite app_nil_r. auto.
  - destruct (IH (Window.log Window.Analyze w)) as (H1 & H2 & H3).
    rewrite H1, H2, H3. cbn. rewrite <- app_assoc. auto.
Qed.

(** C7: a call while the video reports no width returns none and leaves
    the analyzer as it was, without allocating or decoding, and so does every
    such call of a new analyzer; the first call that sees a width only
    measures, allocates and returns none, without decoding; a call decodes
    exactly when there is a width and the buffer was allocated by an earlier
    call. *)
Theorem analyze_allocates_before_decoding :
  forall (fs : list Frame) (f : Frame) (an : Analyzer.t) (w : Window.t),
    (videoWidth f = 0 ->
     Analyzer.analyze f an w = (None, an, Window.log Window.Analyze w)) /\
    (Forall (fun f => videoWidth f = 0) fs -> videoWidth f <> 0 ->
     exists w1,
       analyze_all fs Analyzer.new w = (repeat None (List.length fs), Analyzer.new, w1) /\
       calls_since w w1 = repeat Window.Analyze (List.length fs) /\
       exists an',
         Analyzer.analyze f Analyzer.new w1 =
           (None, an',
            Window.log (Window.Resize (videoWidth f) (videoHeight f))
              (Window.log Window.Analyze w1)) /\
         Analyzer.imageBuffer an' = Some (resized f) /\
         Analyzer.sensorWidth an' = Some (videoWidth f) /\
         Analyzer.sensorHeight an' = Some (videoHeight f)) /\
    (In Window.DecodeQr (calls_since w (snd (Analyzer.analyze f an w))) <->
     videoWidth f <> 0 /\ Analyzer.has_buffer an = true) /\
    (In Window.DecodeQr (calls_since w (snd (Analyzer.analyze f an w))) ->
     ~ In (Window.Resize (videoWidth f) (videoHeight f))
         (calls_since w (snd (Analyzer.analyze f an w))) /\
     exists p, Analyzer.imageBuffer an = Some p /\ p <> 0).
Proof.
  intros fs f an w.
  assert (Hdec :
    In Window.DecodeQr (calls_since w (snd (Analyzer.analyze f an w))) <->
    videoWidth f <> 0 /\ Analyzer.has_buffer an = true).
  { unfold calls_since.
    destruct (Z.eq_dec (videoWidth f) 0) as [H0 | H0].
    - rewrite (analyze_no_width f an w H0). cbn.
      rewrite skipn_length_app. cbn. split; [intros [H | []]; discriminate |].
      intros [H _]; contradiction.
    - destruct (Analyzer.has_buffer an) eqn:Hb.
      + destruct (analyze_decodes f an w H0 Hb) as (_ & _ & Ht).
        rewrite Ht, skipn_length_app. cbn. split; auto.
      + rewrite (analyze_allocates f an w H0 Hb). cbn.
        rewrite <- app_assoc, skipn_length_app. cbn.
        split; [intros [H | [H | []]]; discriminate |].
        intros [_ H]; discriminate. }
  split; [| split; [| split; [exact Hdec |]]].
  - apply analyze_no_width.
  - intros Hfs Hf. rewrite (analyze_all_no_width fs Analyzer.new w Hfs).
    eexists. split; [reflexivity |].
    destruct (log_only_analyze fs w) as (Ht & _). cbv zeta in Ht.
    split; [unfold calls_since; rewrite Ht; apply skipn_length_app |].
    rewrite (analyze_allocates f Analyzer.new _ Hf eq_refl).
    eexists. split; [reflexivity |]. cbn. auto.
  - intros Hin. apply Hdec in Hin. destruct Hin as [H0 Hb]. split.
    + destruct (analyze_decodes f an w H0 Hb) as (_ & _ & Ht).
      unfold calls_since. rewrite Ht, skipn_length_app. cbn.
      intros [H | [H | [H | [H | []]]]]; discriminate.
    + unfold Analyzer.has_buffer, truthy_number in Hb.
      destruct (Analyzer.imageBuffer an) as [p |]; [| discriminate].
      exists p. split; [reflexivity |].
      intros ->. discriminate.
Qed.

(** ** Timers and emitted events *)

Lemma events_of_app (a b : list Window.effect) :
  events_of (a ++ b) = events_of a ++ events_of b.
Proof.
  induction a as [| e a IH]; cbn; [reflexivity |].
  destruct e; cbn; rewrite IH; reflexivity.
Qed.

Lemma emitted_log e w :
  emitted (Window.log e w) = emitted w ++ events_of [e].
Proof. unfold emitted. cbn. apply events_of_app. Qed.

Lemma In_enqueue (tm x : Window.timer) (q : list Window.timer) :
  In x (Window.enqueue tm q) <-> x = tm \/ In x q.
Proof.
  induction q as [| y q IH]; cbn.
  - intuition.
  - destruct (Window.due y <=? Window.due tm); cbn; rewrite ?IH; intuition.
Qed.

Lemma scans_of_In (q : list Window.timer) (e : Window.event) :
  In e (scans_of q) ->
  exists tm result image,
    In tm q /\ Window.callback tm = Window.EmitScan result image /\
    e = Window.Scan result image.
Proof.
  induction q as [| tm q IH]; cbn; [intros [] |].
  destruct (Window.callback tm) as [| result image] eqn:E.
  - intros H. destruct (IH H) as (tm' & r & i & H1 & H2 & H3).
    exists tm', r, i. auto.
  - intros [<- | H].
    + exists tm, result, image. auto.
    + destruct (IH H) as (tm' & r & i & H1 & H2 & H3).
      exists tm', r, i. auto.
Qed.

(** Firing a list of timers: the scan events are emitted in order, and
    [lastResult] is cleared if an expiry timer is among them. *)
Lemma run_tasks_effect (ready : list Window.timer) :
  forall this w,
    let r := fold_left ActiveScan.run_task ready (this, w) in
    emitted (snd r) = emitted w ++ scans_of ready /\
    ActiveScan.lastResult (fst r) =
      (if existsb is_clear ready then None else ActiveScan.lastResult this).
Proof.
  induction ready as [| tm ready IH]; intros this w; cbn.
  - rewrite app_nil_r. auto.
  - unfold is_clear at 1. destruct (Window.callback tm) as [| result image]; cbn.
    + destruct (IH (ActiveScan.set_lastResult None this) w) as (H1 & H2).
      rewrite H1, H2. cbn. destruct (existsb is_clear ready); auto.
    + destruct (IH this (Window.log (Window.Emit (Window.Scan result image)) w))
        as (H1 & H2).
      rewrite H1, H2, emitted_log. cbn. rewrite <- app_assoc. auto.
Qed.

Lemma advance_effect t this w :
  let r := ActiveScan.advance t this w in
  Window.timers (snd r) = waiting_at t w /\
  emitted (snd r) = emitted w ++ scans_of (ready_at t w) /\
  ActiveScan.lastResult (fst r) =
    (if existsb is_clear (ready_at t w) then None
     else ActiveScan.lastResult this).
Proof.
  unfold ActiveScan.advance, ready_at, waiting_at.
  rewrite partition_as_filter.
  set (ready := filter _ (Window.timers w)).
  set (waiting := filter _ (Window.timers w)).
  set (w0 := Window.set_now _ _).
  pose proof (run_tasks_same ready this w0) as (_ & _ & _ & _ & _ & (Ht & _)).
  pose proof (run_tasks_effect ready this w0) as (He & Hl).
  cbv zeta in *. rewrite Ht, He, Hl. auto.
Qed.

(** ** Acceptance and rejection of a decoded text *)

Ltac solve_emitted :=
  unfold emitted; cbn; repeat rewrite events_of_app; cbn;
  repeat rewrite app_nil_r; reflexivity.

Lemma analyze_emitted f an w :
  emitted (snd (Analyzer.analyze f an w)) = emitted w.
Proof.
  unfold Analyzer.analyze.
  destruct (negb (truthy_number (videoWidth f))); [solve_emitted |].
  destruct (negb (Analyzer.has_buffer an)); [solve_emitted |].
  destruct (truthy_number (decode_status f)); [solve_emitted |].
  cbn.
  destruct (fold_left Analyzer.decodeCallback (decode_chunks f)
              (Window.zxDecodeResult w)); solve_emitted.
Qed.

Lemma deliver_rejects f a this w :
  match a with
  | Some (result, _) =>
      negb (truthy_string result)
      || strict_eq (ActiveScan.lastResult this) result = true
  | None => True
  end ->
  deliver f a this w = (this, w).
Proof.
  unfold deliver. destruct a as [[result c] |]; [| reflexivity].
  intros ->. reflexivity.
Qed.

Lemma scan_emitted f this w :
  emitted (snd (ActiveScan._scan f this w)) = emitted w.
Proof.
  destruct (ActiveScan._active this) eqn:Ha;
    [| rewrite (scan_idle f this w Ha); reflexivity].
  destruct (Z.eq_dec (ActiveScan._frameCount this + 1)
              (ActiveScan.scanPeriod this)) as [He | Hn];
    [| rewrite (scan_skip f this w Ha Hn); solve_emitted].
  rewrite (scan_analyze f this w Ha He). cbv zeta.
  pose proof (analyze_emitted f (ActiveScan._analyzer this)
                (Window.requestAnimationFrame w)) as Hem.
  set (r := Analyzer.analyze f _ _) in *.
  assert (Hw : emitted (Window.requestAnimationFrame w) = emitted w).
  { solve_emitted. }
  rewrite Hw in Hem. unfold deliver.
  destruct (fst (fst r)) as [[result c] |]; cbn; [| exact Hem].
  destruct (negb (truthy_string result) || _); cbn; [exact Hem |].
  destruct (ActiveScan.refractoryTimeout _); cbn; exact Hem.
Qed.

(** A callback that accepts nothing leaves the duplicate check alone. *)
Lemma scan_rejects f this w :
  accepted f this w = None ->
  same_suppressor (this, w) (ActiveScan._scan f this w).
Proof.
  unfold accepted, decoded, same_suppressor. intros Hacc.
  split; [| split; [| split; [| split; [| apply scan_emitted]]]];
  (destruct (ActiveScan._active this) eqn:Ha;
    [| rewrite (scan_idle f this w Ha); reflexivity]);
  (destruct (Z.eq_dec (ActiveScan._frameCount this + 1)
              (ActiveScan.scanPeriod this)) as [He | Hn];
    [| rewrite (scan_skip f this w Ha Hn); reflexivity]);
  rewrite (scan_analyze f this w Ha He); cbv zeta;
  pose proof (analyze_same_page f (ActiveScan._analyzer this)
                (Window.requestAnimationFrame w)) as (_ & (Ht & Hn));
  apply Z.eqb_eq in He; rewrite He in Hacc; cbn in Hacc;
  set (r := Analyzer.analyze f _ _) in *;
  (rewrite deliver_rejects;
   [cbn; auto
   | destruct (fst (fst r)) as [[result c] |]; cbn in *; [| exact I];
     destruct (negb (truthy_string result) || _); [reflexivity | discriminate]]).
Qed.

(** A callback that accepts [result] cancels the pending expiry timer,
    schedules a new one and the emission, and records the result. *)
Lemma scan_accepts f this w result :
  accepted f this w = Some result ->
  let st := ActiveScan._scan f this w in
  let n := Window.next_timer w in
  let image :=
    if ActiveScan.captureImage this then Some (dataURL f) else None in
  ActiveScan.lastResult (fst st) = Some result /\
  ActiveScan.refractoryTimeout (fst st) = Some n /\
  Window.timers (snd st) =
    Window.enqueue
      (Window.mkTimer (S n) (Window.now w + Z.max 0 0)
         (Window.EmitScan result image))
      (Window.enqueue
         (Window.mkTimer n
            (Window.now w + Z.max 0 (ActiveScan.refractoryPeriod this))
            Window.ClearLastResult)
         (Window.timers
            (Window.clearTimeout (ActiveScan.refractoryTimeout this) w))) /\
  Window.next_timer (snd st) = S (S n) /\
  emitted (snd st) = emitted w /\
  truthy_string result = true /\
  ActiveScan.lastResult this <> Some result.
Proof.
  unfold accepted, decoded. intros Hacc. cbv zeta.
  destruct (ActiveScan._active this) eqn:Ha; [| discriminate].
  destruct (Z.eq_dec (ActiveScan._frameCount this + 1)
              (ActiveScan.scanPeriod this)) as [He | Hn];
    [| apply Z.eqb_neq in Hn; rewrite Hn in Hacc; discriminate].
  pose proof (scan_emitted f this w) as Hem.
  rewrite (scan_analyze f this w Ha He) in *. cbv zeta in *.
  pose proof (analyze_same_page f (ActiveScan._analyzer this)
                (Window.requestAnimationFrame w)) as ((Hnow & _) & (Ht & Hn)).
  apply Z.eqb_eq in He. rewrite He in Hacc. cbn in Hacc.
  set (r := Analyzer.analyze f _ _) in *.
  destruct (fst (fst r)) as [[res c] |]; cbn in Hacc; [| discriminate].
  unfold deliver in *.
  destruct (negb (truthy_string res)) eqn:Et; cbn in *; [discriminate |].
  destruct (strict_eq (ActiveScan.lastResult this) res) eqn:Es; cbn in *;
    [discriminate |].
  injection Hacc as ->.
  assert (Hq : Window.timers
                 (Window.clearTimeout (ActiveScan.refractoryTimeout this) (snd r))
               = Window.timers
                   (Window.clearTimeout (ActiveScan.refractoryTimeout this) w)).
  { unfold Window.clearTimeout.
    destruct (ActiveScan.refractoryTimeout this); cbn; rewrite Ht; reflexivity. }
  assert (Hm : Window.next_timer
                 (Window.clearTimeout (ActiveScan.refractoryTimeout this) (snd r))
               = Window.next_timer w).
  { unfold Window.clearTimeout.
    destruct (ActiveScan.refractoryTimeout this); cbn; exact Hn. }
  assert (Hc : Window.now
                 (Window.clearTimeout (ActiveScan.refractoryTimeout this) (snd r))
               = Window.now w).
  { unfold Window.clearTimeout.
    destruct (ActiveScan.refractoryTimeout this); cbn; exact Hnow. }
  rewrite Hq, Hm, Hc.
  repeat split; auto.
  - apply negb_false_iff in Et. exact Et.
  - intros E. rewrite E in Es. cbn in Es. rewrite String.eqb_refl in Es.
    discriminate.
Qed.

(** ** Empty results *)

Lemma clearTimeout_In id w tm :
  In tm (Window.timers (Window.clearTimeout id w)) -> In tm (Window.timers w).
Proof.
  unfold Window.clearTimeout. destruct id as [i |]; cbn; [| auto].
  intros H. apply filter_In in H. tauto.
Qed.

Lemma no_empty_scan_scan f this w :
  no_empty_scan w -> no_empty_scan (snd (ActiveScan._scan f this w)).
Proof.
  intros [He Ht]. destruct (accepted f this w) as [result |] eqn:Ea.
  - destruct (scan_accepts f this w result Ea) as (_ & _ & Hq & _ & Hem & Hr & _).
    cbv zeta in *. split.
    + intros image. rewrite Hem. apply He.
    + intros tm image Hin. rewrite Hq in Hin.
      apply In_enqueue in Hin. destruct Hin as [-> | Hin].
      * cbn. intros E. injection E as E _. subst result. discriminate.
      * apply In_enqueue in Hin. destruct Hin as [-> | Hin]; [discriminate |].
        apply clearTimeout_In in Hin. apply Ht, Hin.
  - destruct (scan_rejects f this w Ea) as (_ & _ & Hq & _ & Hem). cbn in *.
    split.
    + intros image. rewrite Hem. apply He.
    + intros tm image. rewrite Hq. apply Ht.
Qed.

Lemma no_empty_scan_advance t this w :
  no_empty_scan w -> no_empty_scan (snd (ActiveScan.advance t this w)).
Proof.
  intros [He Ht]. destruct (advance_effect t this w) as (Hq & Hem & _).
  cbv zeta in *. split.
  - intros image. rewrite Hem. intros Hin. apply in_app_or in Hin.
    destruct Hin as [Hin | Hin]; [exact (He image Hin) |].
    apply scans_of_In in Hin.
    destruct Hin as (tm & r & i & Hin & Hc & E). injection E as <- <-.
    unfold ready_at in Hin. apply filter_In in Hin.
    exact (Ht tm image (proj1 Hin) Hc).
  - intros tm image. rewrite Hq. unfold waiting_at. intros Hin.
    apply filter_In in Hin. apply Ht, Hin.
Qed.

Lemma no_empty_scan_run (sched : list (Z * Frame)) :
  forall this w,
    no_empty_scan w -> no_empty_scan (snd (ActiveScan.run sched this w)).
Proof.
  unfold ActiveScan.run.
  induction sched as [| s sched IH]; intros this w H; cbn; [exact H |].
  destruct (ActiveScan.tick this w s) as [this1 w1] eqn:E. cbn.
  apply IH. unfold ActiveScan.tick in E.
  pose proof (no_empty_scan_advance (fst s) this w H) as H1.
  destruct (ActiveScan.advance (fst s) this w) as [this0 w0]. cbn in H1.
  pose proof (no_empty_scan_scan (snd s) this0 w0 H1) as H2.
  rewrite E in H2. exact H2.
Qed.

(** C9: a zero-status decode that assembles the empty string makes
    [analyze] return a result with empty text; the frame callback then leaves
    the duplicate check untouched, as it does when nothing was decoded; and
    no run of the loop ever emits, or schedules the emission of, a scan event
    with empty text. *)
Theorem empty_text_is_never_emitted :
  forall (sched : list (Z * Frame)) (f : Frame) (this : ActiveScan.t)
         (w : Window.t),
    (videoWidth f <> 0 ->
     Analyzer.has_buffer (ActiveScan._analyzer this) = true ->
     decode_status f = 0 ->
     fold_left Analyzer.decodeCallback (decode_chunks f)
       (Window.zxDecodeResult w) = Some ""%string ->
     fst (fst (Analyzer.analyze f (ActiveScan._analyzer this) w)) =
       Some (""%string, Analyzer.canvas_ (ActiveScan._analyzer this))) /\
    (decoded f this w = Some ""%string \/ decoded f this w = None ->
     accepted f this w = None /\
     same_suppressor (this, w) (ActiveScan._scan f this w)) /\
    (no_empty_scan w -> no_empty_scan (snd (ActiveScan.run sched this w))).
Proof.
  intros sched f this w. split; [| split].
  - intros Hw Hb Hs Hacc.
    destruct (analyze_decodes f (ActiveScan._analyzer this) w Hw Hb) as (H & _).
    cbv zeta in H. rewrite Hacc, Hs in H. cbn in H. rewrite H. reflexivity.
  - intros Hd.
    assert (Ha : accepted f this w = None).
    { unfold accepted. destruct Hd as [-> | ->]; reflexivity. }
    split; [exact Ha | apply scan_rejects, Ha].
  - apply no_empty_scan_run.
Qed.

Example analyze_empty_frame :
  fst (fst (Analyzer.analyze empty_frame
              (snd (fst (Analyzer.analyze empty_frame Analyzer.new
                           (Window.fresh "visible"))))
              (Window.fresh "visible")))
  = Some (""%string, Analyzer.mkCanvas (Some 2) (Some 2)).
Proof. reflexivity. Qed.

(** ** The cadence of the loop *)

Lemma count_analyze_app (a b : list Window.effect) :
  count_analyze (a ++ b) = count_analyze a + count_analyze b.
Proof.
  induction a as [| e a IH]; cbn -[Z.add]; [reflexivity |].
  destruct e; rewrite IH; lia.
Qed.

Ltac solve_analyses :=
  unfold analyses; cbn -[Z.add count_analyze];
  repeat rewrite count_analyze_app; cbn -[Z.add]; lia.

Lemma analyze_analyses f an w :
  analyses (snd (Analyzer.analyze f an w)) = analyses w + 1.
Proof.
  unfold Analyzer.analyze.
  destruct (negb (truthy_number (videoWidth f))); [solve_analyses |].
  destruct (negb (Analyzer.has_buffer an)); [solve_analyses |].
  destruct (truthy_number (decode_status f)); [solve_analyses |].
  cbn -[Z.add count_analyze].
  destruct (fold_left Analyzer.decodeCallback (decode_chunks f)
              (Window.zxDecodeResult w)); solve_analyses.
Qed.

Lemma deliver_analyses f a this w :
  analyses (snd (deliver f a this w)) = analyses w.
Proof.
  unfold deliver. destruct a as [[result c] |]; [| reflexivity].
  destruct (negb (truthy_string result) || _); [reflexivity |].
  destruct (ActiveScan.refractoryTimeout this); reflexivity.
Qed.

(** One frame callback of an active loop: [analyze] is called exactly when
    the incremented counter equals [scanPeriod], and the counter is then
    reset. *)
Lemma scan_cadence f this w :
  ActiveScan._active this = true ->
  let hit := ActiveScan._frameCount this + 1 =? ActiveScan.scanPeriod this in
  analyses (snd (ActiveScan._scan f this w)) =
    analyses w + (if hit then 1 else 0) /\
  ActiveScan._frameCount (fst (ActiveScan._scan f this w)) =
    (if hit then 0 else ActiveScan._frameCount this + 1).
Proof.
  intros Ha hit. subst hit.
  destruct (Z.eq_dec (ActiveScan._frameCount this + 1)
              (ActiveScan.scanPeriod this)) as [He | Hn].
  - rewrite (scan_analyze f this w Ha He). cbv zeta.
    apply Z.eqb_eq in He. rewrite He.
    set (r := Analyzer.analyze f _ _).
    pose proof (deliver_same f (fst (fst r))
                  (ActiveScan.set_analyzer (snd (fst r))
                     (ActiveScan.set_frameCount 0 this)) (snd r))
      as (_ & _ & Hfc & _).
    rewrite deliver_analyses, Hfc. subst r. rewrite analyze_analyses.
    split; [solve_analyses | reflexivity].
  - rewrite (scan_skip f this w Ha Hn). apply Z.eqb_neq in Hn. rewrite Hn.
    split; [solve_analyses | reflexivity].
Qed.

Lemma run_tasks_analyses (ready : list Window.timer) :
  forall this w,
    analyses (snd (fold_left ActiveScan.run_task ready (this, w))) = analyses w.
Proof.
  induction ready as [| tm ready IH]; intros this w; cbn; [reflexivity |].
  destruct (Window.callback tm); rewrite IH; [reflexivity | solve_analyses].
Qed.

Lemma advance_analyses t this w :
  analyses (snd (ActiveScan.advance t this w)) = analyses w.
Proof.
  unfold ActiveScan.advance.
  destruct (partition _ (Window.timers w)) as [ready waiting].
  rewrite run_tasks_analyses. reflexivity.
Qed.

(** One tick: the timers that are due, then the frame callback. *)
Lemma tick_cadence this w s :
  ActiveScan._active this = true ->
  let hit := ActiveScan._frameCount this + 1 =? ActiveScan.scanPeriod this in
  let r := ActiveScan.tick this w s in
  analyses (snd r) = analyses w + (if hit then 1 else 0) /\
  ActiveScan._frameCount (fst r) =
    (if hit then 0 else ActiveScan._frameCount this + 1) /\
  ActiveScan._active (fst r) = true /\
  ActiveScan.scanPeriod (fst r) = ActiveScan.scanPeriod this.
Proof.
  intros Ha. cbv zeta. unfold ActiveScan.tick.
  pose proof (advance_same (fst s) this w) as ((Hp & _ & _ & Hact) & Hfc & _).
  pose proof (advance_analyses (fst s) this w) as Han.
  destruct (ActiveScan.advance (fst s) this w) as [this0 w0]. cbn in *.
  rewrite Ha in Hact.
  pose proof (scan_cadence (snd s) this0 w0 Hact) as (H1 & H2).
  pose proof (scan_same (snd s) this0 w0) as (_ & (Hp' & _ & _ & Hact')).
  cbv zeta in *. rewrite Hfc, Hp, Han in *.
  rewrite H1, H2, Hact', Hp', Hact. auto.
Qed.

Lemma run_cons s sched this w :
  ActiveScan.run (s :: sched) this w =
    ActiveScan.run sched (fst (ActiveScan.tick this w s))
      (snd (ActiveScan.tick this w s)).
Proof.
  unfold ActiveScan.run. cbn.
  destruct (ActiveScan.tick this w s); reflexivity.
Qed.

(** C3: with a fixed positive [scanPeriod] N, an active loop whose counter
    is below N (it starts at zero) calls [analyze] in a frame callback
    exactly when the counter reaches N, resetting it; so after any number k
    of ticks of a new loop it has been called k / N times, once per N ticks
    and never more often. *)
Theorem analyze_once_per_scanPeriod :
  forall (N : Z) (sched : list (Z * Frame)) (this : ActiveScan.t) (w : Window.t),
    0 < N ->
    ActiveScan._active this = true ->
    ActiveScan.scanPeriod this = N ->
    0 <= ActiveScan._frameCount this < N ->
    let k := Z.of_nat (List.length sched) in
    let c := ActiveScan._frameCount this in
    let st := ActiveScan.run sched this w in
    analyses (snd st) = analyses w + (c + k) / N /\
    ActiveScan._frameCount (fst st) = (c + k) mod N /\
    (c = 0 -> analyses (snd st) = analyses w + k / N) /\
    (forall f,
       analyses (snd (ActiveScan._scan f this w)) =
         analyses w + (if c + 1 =? N then 1 else 0) /\
       ActiveScan._frameCount (fst (ActiveScan._scan f this w)) =
         (if c + 1 =? N then 0 else c + 1)).
Proof.
  intros N sched. induction sched as [| s sched IH]; intros this w HN Ha Hp Hc.
  - cbn -[Z.add Z.div Z.modulo]. rewrite Z.add_0_r.
    rewrite (Z.div_small _ _ Hc), (Z.mod_small _ _ Hc).
    split; [lia | split; [reflexivity | split]].
    { intros _. rewrite Z.div_0_l by lia. lia. }
    intros f. rewrite <- Hp. apply scan_cadence, Ha.
  - cbv zeta. rewrite run_cons.
    pose proof (tick_cadence this w s Ha) as (H1 & H2 & H3 & H4).
    cbv zeta in *. rewrite Hp in *.
    set (this1 := fst (ActiveScan.tick this w s)) in *.
    set (w1 := snd (ActiveScan.tick this w s)) in *.
    assert (Hc1 : 0 <= ActiveScan._frameCount this1 < N).
    { rewrite H2. destruct (Z.eqb_spec (ActiveScan._frameCount this + 1) N); lia. }
    destruct (IH this1 w1 HN H3 H4 Hc1) as (G1 & G2 & _ & _).
    cbv zeta in *.
    replace (Z.of_nat (List.length (s :: sched)))
      with (1 + Z.of_nat (List.length sched)) by (cbn [List.length]; lia).
    assert (Hdiv :
      (ActiveScan._frameCount this + (1 + Z.of_nat (List.length sched))) / N =
      (if ActiveScan._frameCount this + 1 =? N then 1 else 0) +
      (ActiveScan._frameCount this1 + Z.of_nat (List.length sched)) / N /\
      (ActiveScan._frameCount this + (1 + Z.of_nat (List.length sched))) mod N =
      (ActiveScan._frameCount this1 + Z.of_nat (List.length sched)) mod N).
    { rewrite H2.
      destruct (Z.eqb_spec (ActiveScan._frameCount this + 1) N) as [E | E].
      - split.
        + replace (ActiveScan._frameCount this
                   + (1 + Z.of_nat (List.length sched)))
            with (1 * N + (0 + Z.of_nat (List.length sched))) by lia.
          apply Z.div_add_l. lia.
        + replace (ActiveScan._frameCount this
                   + (1 + Z.of_nat (List.length sched)))
            with (0 + Z.of_nat (List.length sched) + 1 * N) by lia.
          apply Z.mod_add. lia.
      - rewrite Z.add_assoc. split; reflexivity. }
    destruct Hdiv as [Hd Hm].
    assert (F1 : analyses (snd (ActiveScan.run sched this1 w1)) =
                 analyses w +
                 (ActiveScan._frameCount this
                  + (1 + Z.of_nat (List.length sched))) / N)
      by (rewrite G1, H1, Hd; lia).
    split; [exact F1 |].
    split; [rewrite G2, Hm; reflexivity |].
    split.
    + intros E0. rewrite F1, E0, Z.add_0_l. reflexivity.
    + intros f. rewrite <- Hp. apply scan_cadence, Ha.
Qed.

Lemma analyze_once_per_scanPeriod_witness :
  let this := ActiveScan.set_scanPeriod 3 (Scanner._scan (fst running)) in
  let sched := map (fun t => (t, frame_x)) [1; 2; 3; 4; 5; 6; 7] in
  analyses (snd (ActiveScan.run sched this (snd running))) =
    analyses (snd running) + 2.
Proof.
  intros this sched.
  assert (H3 : 0 < 3) by lia.
  assert (Hc : 0 <= ActiveScan._frameCount this < 3) by (cbn; lia).
  destruct (analyze_once_per_scanPeriod 3 sched this (snd running)
              H3 eq_refl eq_refl Hc) as (_ & _ & H & _).
  exact (H eq_refl).
Defined.

(** ** Changing the configuration while the loop runs *)

(** The setters write through to the loop, and the next frame callback
    reads what they wrote. *)
Lemma setters_take_effect (this : Scanner.t) (capture : bool) (period r : Z) :
  Scanner.captureImage (Scanner.set_captureImage capture this) = capture /\
  Scanner.scanPeriod (Scanner.set_scanPeriod period this) = period /\
  Scanner.refractoryPeriod (Scanner.set_refractoryPeriod r this) = r /\
  ActiveScan._frameCount (Scanner._scan (Scanner.set_scanPeriod period this)) =
    ActiveScan._frameCount (Scanner._scan this) /\
  forall f w,
    ActiveScan._active (Scanner._scan this) = true ->
    analyses (snd (ActiveScan._scan f
                     (Scanner._scan (Scanner.set_scanPeriod period this)) w)) =
      analyses w +
      (if ActiveScan._frameCount (Scanner._scan this) + 1 =? period
       then 1 else 0).
Proof.
  repeat split. intros f w Ha.
  apply (scan_cadence f (Scanner._scan (Scanner.set_scanPeriod period this)) w Ha).
Qed.

(** Once the counter has reached or passed [scanPeriod], no frame callback
    calls [analyze] any more: the counter only grows. *)
Lemma stalled (sched : list (Z * Frame)) :
  forall this w,
    ActiveScan._active this = true ->
    ActiveScan.scanPeriod this <= ActiveScan._frameCount this ->
    let st := ActiveScan.run sched this w in
    analyses (snd st) = analyses w /\
    ActiveScan._frameCount (fst st) =
      ActiveScan._frameCount this + Z.of_nat (List.length sched).
Proof.
  induction sched as [| s sched IH]; intros this w Ha Hle.
  - cbn -[Z.add]. split; [reflexivity | lia].
  - cbv zeta. rewrite run_cons.
    pose proof (tick_cadence this w s Ha) as (H1 & H2 & H3 & H4).
    cbv zeta in *.
    assert (Hn : (ActiveScan._frameCount this + 1
                  =? ActiveScan.scanPeriod this) = false)
      by (apply Z.eqb_neq; lia).
    rewrite Hn in *.
    set (this1 := fst (ActiveScan.tick this w s)) in *.
    set (w1 := snd (ActiveScan.tick this w s)) in *.
    assert (Hle1 : ActiveScan.scanPeriod this1 <= ActiveScan._frameCount this1)
      by lia.
    destruct (IH this1 w1 H3 Hle1) as (G1 & G2). cbv zeta in *.
    rewrite G1, G2, H1, H2. cbn [List.length]. lia.
Qed.

(** C8, where the code departs from it: after [scanPeriod] is lowered to 3
    while the counter stands at 5, the loop is active with period 3 and yet
    no later frame callback ever calls [analyze]. *)
Theorem lowered_scanPeriod_stalls_decoding :
  forall (sched : list (Z * Frame)),
    Scanner.scanPeriod (fst lowered) = 3 /\
    ActiveScan._active (Scanner._scan (fst lowered)) = true /\
    ActiveScan._frameCount (Scanner._scan (fst lowered)) = 5 /\
    analyses (snd (ActiveScan.run sched (Scanner._scan (fst lowered))
                     (snd lowered)))
    = analyses (snd lowered).
Proof.
  intros sched.
  split; [reflexivity | split; [reflexivity | split; [reflexivity |]]].
  apply (stalled sched (Scanner._scan (fst lowered)) (snd lowered)).
  - reflexivity.
  - cbn. lia.
Qed.

(** ** The refractory period *)

Lemma scans_of_nil_iff (q : list Window.timer) :
  scans_of q = [] <-> forall tm, In tm q -> is_clear tm = true.
Proof.
  unfold is_clear. induction q as [| x q IH]; cbn.
  - split; [intros _ tm [] | reflexivity].
  - destruct (Window.callback x) eqn:E; split.
    + intros H tm [<- | Hin]; [rewrite E; reflexivity | apply IH; assumption].
    + intros H. apply IH. intros tm Hin. apply H. auto.
    + discriminate.
    + intros H. specialize (H x (or_introl eq_refl)). rewrite E in H.
      discriminate.
Qed.

Lemma filter_clear_nil_iff (q : list Window.timer) :
  filter is_clear q = [] <-> forall tm, In tm q -> is_clear tm = false.
Proof.
  induction q as [| x q IH]; cbn.
  - split; [intros _ tm [] | reflexivity].
  - destruct (is_clear x) eqn:E; split.
    + discriminate.
    + intros H. specialize (H x (or_introl eq_refl)). congruence.
    + intros H tm [<- | Hin]; [exact E | apply IH; assumption].
    + intros H. apply IH. intros tm Hin. apply H. auto.
Qed.

Lemma scans_of_filter (p : Window.timer -> bool) (q : list Window.timer) :
  (forall tm, In tm q -> p tm = false -> is_clear tm = true) ->
  scans_of (filter p q) = scans_of q.
Proof.
  unfold is_clear. induction q as [| x q IH]; cbn; [reflexivity |].
  intros H. destruct (p x) eqn:E; cbn.
  - destruct (Window.callback x); rewrite IH; auto.
  - specialize (H x (or_introl eq_refl) E) as Hx.
    destruct (Window.callback x); [| discriminate]. apply IH. auto.
Qed.

Lemma scans_of_enqueue_clear tm q :
  is_clear tm = true -> scans_of (Window.enqueue tm q) = scans_of q.
Proof.
  unfold is_clear. intros H. induction q as [| x q IH]; cbn.
  - destruct (Window.callback tm); [reflexivity | discriminate].
  - destruct (Window.due x <=? Window.due tm); cbn.
    + rewrite IH. reflexivity.
    + destruct (Window.callback tm); [reflexivity | discriminate].
Qed.

Lemma scans_of_enqueue_emit id d result image q :
  scans_of q = [] ->
  scans_of (Window.enqueue
              (Window.mkTimer id d (Window.EmitScan result image)) q)
  = [Window.Scan result image].
Proof.
  induction q as [| x q IH]; cbn; [reflexivity |].
  destruct (Window.callback x) eqn:E; [| discriminate].
  intros H. destruct (Window.due x <=? d); cbn; rewrite E;
    [apply IH, H | rewrite H; reflexivity].
Qed.

Lemma expiries_enqueue_emit id d result image q :
  filter is_clear
    (Window.enqueue (Window.mkTimer id d (Window.EmitScan result image)) q)
  = filter is_clear q.
Proof.
  induction q as [| x q IH]; cbn; [reflexivity |].
  destruct (Window.due x <=? d); cbn; [rewrite IH |]; reflexivity.
Qed.

Lemma expiries_enqueue_clear tm q :
  is_clear tm = true ->
  filter is_clear q = [] ->
  filter is_clear (Window.enqueue tm q) = [tm].
Proof.
  intros Hc. induction q as [| x q IH]; cbn.
  - rewrite Hc. reflexivity.
  - destruct (is_clear x) eqn:E; [discriminate |]. intros H.
    destruct (Window.due x <=? Window.due tm); cbn; rewrite E.
    + apply IH, H.
    + rewrite Hc, H. reflexivity.
Qed.

Lemma filter_comm {A} (f g : A -> bool) (l : list A) :
  filter f (filter g l) = filter g (filter f l).
Proof.
  induction l as [| a l IH]; cbn; [reflexivity |].
  destruct (f a) eqn:Ef, (g a) eqn:Eg; cbn; rewrite ?Ef, ?Eg, IH; reflexivity.
Qed.

(** The queue after [clearTimeout(this.refractoryTimeout)] holds no expiry
    timer and the same emissions. *)
Lemma clearTimeout_expiries this w :
  wf this w ->
  let w1 := Window.clearTimeout (ActiveScan.refractoryTimeout this) w in
  filter is_clear (Window.timers w1) = [] /\
  scans_of (Window.timers w1) = scans_of (Window.timers w) /\
  (forall tm, In tm (Window.timers w1) ->
     is_clear tm = false /\ Window.due tm <= Window.now w /\
     (Window.timer_id tm < Window.next_timer w)%nat).
Proof.
  intros Hwf. cbv zeta. unfold Window.clearTimeout.
  destruct (ActiveScan.refractoryTimeout this) as [i |] eqn:Er; cbn.
  - assert (Hrm : forall tm, In tm (Window.timers w) ->
                    negb (Nat.eqb (Window.timer_id tm) i) = false ->
                    is_clear tm = true).
    { intros tm Hin Hp. apply negb_false_iff, Nat.eqb_eq in Hp.
      apply (Hwf tm Hin). congruence. }
    assert (Hkeep : forall tm,
              In tm (filter (fun tm => negb (Nat.eqb (Window.timer_id tm) i))
                       (Window.timers w)) ->
              is_clear tm = false).
    { intros tm Hin. apply filter_In in Hin. destruct Hin as [Hin Hp].
      destruct (is_clear tm) eqn:E; [| reflexivity].
      apply (Hwf tm Hin) in E. rewrite Er in E. injection E as ->.
      rewrite Nat.eqb_refl in Hp. discriminate. }
    split; [apply filter_clear_nil_iff, Hkeep |].
    split; [apply scans_of_filter, Hrm |].
    intros tm Hin. pose proof (Hkeep tm Hin) as Hk.
    apply filter_In in Hin. destruct Hin as [Hin _].
    destruct (Hwf tm Hin) as (_ & Hd & Hid). auto.
  - assert (Hkeep : forall tm, In tm (Window.timers w) -> is_clear tm = false).
    { intros tm Hin. destruct (is_clear tm) eqn:E; [| reflexivity].
      apply (Hwf tm Hin) in E. rewrite Er in E. discriminate. }
    split; [apply filter_clear_nil_iff, Hkeep |].
    split; [reflexivity |].
    intros tm Hin. destruct (Hwf tm Hin) as (_ & Hd & Hid).
    pose proof (Hkeep tm Hin). auto.
Qed.

Lemma tick_eq this w s :
  ActiveScan.tick this w s =
    ActiveScan._scan (snd s)
      (fst (ActiveScan.advance (fst s) this w))
      (snd (ActiveScan.advance (fst s) this w)).
Proof.
  unfold ActiveScan.tick. destruct (ActiveScan.advance (fst s) this w).
  reflexivity.
Qed.

(** Advancing the clock delivers every queued emission and keeps the
    expiry timers that are not yet due. *)
Lemma wf_advance t this w :
  wf this w ->
  let st := ActiveScan.advance t this w in
  wf (fst st) (snd st) /\
  scans_of (Window.timers (snd st)) = [] /\
  emitted (snd st) = outbox this w /\
  expiries (snd st) =
    filter (fun tm => negb (Window.due tm <=? Z.max (Window.now w) t))
      (expiries w).
Proof.
  intros Hwf. cbv zeta.
  destruct (advance_effect t this w) as (Hq & Hem & _).
  destruct (advance_same t this w) as (_ & _ & _ & Hr & Hnow & _ & _ & Hn).
  cbv zeta in *.
  assert (Hlate : forall tm, In tm (Window.timers w) ->
            (Window.due tm <=? Z.max (Window.now w) t) = false ->
            is_clear tm = true).
  { intros tm Hin Hd. destruct (is_clear tm) eqn:E; [reflexivity |].
    destruct (Hwf tm Hin) as (_ & Hdue & _). specialize (Hdue E).
    apply Z.leb_gt in Hd. lia. }
  split; [| split; [| split]].
  - intros tm Hin. rewrite Hq in Hin. unfold waiting_at in Hin.
    apply filter_In in Hin. destruct Hin as [Hin _].
    destruct (Hwf tm Hin) as (H1 & H2 & H3).
    rewrite Hr, Hnow, Hn. split; [exact H1 | split; [| exact H3]].
    intros E. specialize (H2 E). lia.
  - rewrite Hq. apply scans_of_nil_iff. intros tm Hin.
    unfold waiting_at in Hin. apply filter_In in Hin. destruct Hin as [Hin Hp].
    apply negb_true_iff in Hp. apply Hlate; assumption.
  - rewrite Hem. unfold outbox, ready_at. f_equal.
    apply scans_of_filter. intros tm Hin Hp. apply Hlate; assumption.
  - unfold expiries. rewrite Hq. unfold waiting_at. apply filter_comm.
Qed.

(** An accepting frame callback, run after the clock was advanced. *)
Lemma accept_effect f this w result :
  wf this w ->
  scans_of (Window.timers w) = [] ->
  accepted f this w = Some result ->
  let st := ActiveScan._scan f this w in
  let image :=
    if ActiveScan.captureImage this then Some (dataURL f) else None in
  wf (fst st) (snd st) /\
  ActiveScan.lastResult (fst st) = Some result /\
  ActiveScan.refractoryTimeout (fst st) = Some (Window.next_timer w) /\
  expiries (snd st) =
    [Window.mkTimer (Window.next_timer w)
       (Window.now w + Z.max 0 (ActiveScan.refractoryPeriod this))
       Window.ClearLastResult] /\
  outbox (fst st) (snd st) = emitted w ++ [Window.Scan result image] /\
  Window.now (snd st) = Window.now w /\
  truthy_string result = true.
Proof.
  intros Hwf Hno Hacc. cbv zeta.
  destruct (scan_accepts f this w result Hacc)
    as (Hl & Hr & Hq & Hn & Hem & Ht & _).
  destruct (clearTimeout_expiries this w Hwf) as (Hc1 & Hc2 & Hc3).
  destruct (scan_same f this w) as ((Hnow & _) & _).
  cbv zeta in *. rewrite Hno in Hc2.
  set (q1 := Window.timers
               (Window.clearTimeout (ActiveScan.refractoryTimeout this) w)) in *.
  split; [| split; [exact Hl | split; [exact Hr | split; [| split; [| split]]]]].
  - intros tm Hin. rewrite Hq in Hin. rewrite Hr, Hn, Hnow.
    apply In_enqueue in Hin. destruct Hin as [-> | Hin].
    + cbn. split; [| split; [lia | lia]].
      split; [discriminate |]. intros E. injection E as E. lia.
    + apply In_enqueue in Hin. destruct Hin as [-> | Hin].
      * cbn. split; [| split; [discriminate | lia]].
        split; reflexivity.
      * destruct (Hc3 tm Hin) as (H1 & H2 & H3).
        split; [| split; [auto | lia]].
        rewrite H1. split; [discriminate |]. intros E. injection E as E. lia.
  - unfold expiries. rewrite Hq, expiries_enqueue_emit.
    apply expiries_enqueue_clear; [reflexivity | exact Hc1].
  - unfold outbox. rewrite Hem, Hq. f_equal.
    apply scans_of_enqueue_emit.
    rewrite scans_of_enqueue_clear; [exact Hc2 | reflexivity].
  - exact Hnow.
  - exact Ht.
Qed.

Lemma reject_effect f this w :
  wf this w ->
  accepted f this w = None ->
  let st := ActiveScan._scan f this w in
  wf (fst st) (snd st) /\
  same_suppressor (this, w) st /\
  Window.now (snd st) = Window.now w /\
  outbox (fst st) (snd st) = outbox this w /\
  expiries (snd st) = expiries w.
Proof.
  intros Hwf Hacc. cbv zeta.
  pose proof (scan_rejects f this w Hacc) as Hs.
  destruct (scan_same f this w) as ((Hnow & _) & _).
  destruct Hs as (Hl & Hr & Hq & Hn & Hem). cbn in Hl, Hr, Hq, Hn, Hem.
  split; [| split; [| split; [exact Hnow | split]]].
  - intros tm Hin. rewrite Hq in Hin. rewrite Hr, Hn, Hnow. apply Hwf, Hin.
  - unfold same_suppressor. cbn. auto.
  - unfold outbox. rewrite Hem, Hq. reflexivity.
  - unfold expiries. rewrite Hq. reflexivity.
Qed.

Lemma repeat_not_accepted f this w r :
  ActiveScan.lastResult this = Some r ->
  decoded f this w = None \/ decoded f this w = Some ""%string
  \/ decoded f this w = Some r ->
  accepted f this w = None.
Proof.
  intros Hl Hd. unfold accepted.
  destruct Hd as [-> | [-> | ->]]; try reflexivity.
  rewrite Hl. cbn. rewrite String.eqb_refl, orb_true_r. reflexivity.
Qed.

(** A tick before the expiry that only repeats [r] changes nothing in the
    duplicate check and sends nothing new. *)
Lemma armed_tick r c this w s :
  armed r c this w ->
  Window.now w < Window.due c ->
  fst s < Window.due c ->
  (let st0 := ActiveScan.advance (fst s) this w in
   let d := decoded (snd s) (fst st0) (snd st0) in
   d = None \/ d = Some ""%string \/ d = Some r) ->
  let st := ActiveScan.tick this w s in
  armed r c (fst st) (snd st) /\
  Window.now (snd st) < Window.due c /\
  ActiveScan.refractoryTimeout (fst st) = ActiveScan.refractoryTimeout this /\
  outbox (fst st) (snd st) = outbox this w.
Proof.
  intros (Hwf & Hl & He) Hnow Ht Hd. cbv zeta in *. rewrite tick_eq.
  destruct (wf_advance (fst s) this w Hwf) as (Hwf0 & Hno0 & Hem0 & He0).
  destruct (advance_effect (fst s) this w) as (_ & _ & Hl0).
  destruct (advance_same (fst s) this w) as (_ & _ & _ & Hr0 & Hnow0 & _).
  cbv zeta in *.
  set (this0 := fst (ActiveScan.advance (fst s) this w)) in *.
  set (w0 := snd (ActiveScan.advance (fst s) this w)) in *.
  assert (Hc : is_clear c = true /\ In c (Window.timers w)).
  { assert (Hin : In c (expiries w)) by (rewrite He; left; reflexivity).
    unfold expiries in Hin. apply filter_In in Hin. tauto. }
  assert (Hnone : existsb is_clear (ready_at (fst s) w) = false).
  { destruct (existsb is_clear (ready_at (fst s) w)) eqn:E; [| reflexivity].
    apply existsb_exists in E. destruct E as (tm & Hin & Hcl).
    unfold ready_at in Hin. apply filter_In in Hin. destruct Hin as [Hin Hd'].
    assert (Hin' : In tm (expiries w))
      by (unfold expiries; apply filter_In; auto).
    rewrite He in Hin'. destruct Hin' as [<- | []].
    apply Z.leb_le in Hd'. lia. }
  rewrite Hnone in Hl0.
  assert (He0' : expiries w0 = [c]).
  { rewrite He0, He. cbn.
    destruct (Window.due c <=? Z.max (Window.now w) (fst s)) eqn:E;
      [apply Z.leb_le in E; lia | reflexivity]. }
  assert (Hl0' : ActiveScan.lastResult this0 = Some r) by congruence.
  pose proof (repeat_not_accepted (snd s) this0 w0 r Hl0' Hd) as Hacc.
  destruct (reject_effect (snd s) this0 w0 Hwf0 Hacc)
    as (Hwf1 & (Hl1 & Hr1 & _) & Hnow1 & Hob1 & He1).
  cbv zeta in *. cbn in Hl1, Hr1.
  split; [| split; [| split]].
  - unfold armed. split; [exact Hwf1 | split; congruence].
  - rewrite Hnow1, Hnow0. lia.
  - congruence.
  - rewrite Hob1. unfold outbox at 1. rewrite Hno0, Hem0. apply app_nil_r.
Qed.

Lemma armed_run r c (mid : list (Z * Frame)) :
  forall this w,
    armed r c this w ->
    (mid <> [] -> Window.now w < Window.due c) ->
    Forall (fun s => fst s < Window.due c) mid ->
    only_repeats r mid this w ->
    let st := ActiveScan.run mid this w in
    armed r c (fst st) (snd st) /\
    ActiveScan.refractoryTimeout (fst st) = ActiveScan.refractoryTimeout this /\
    outbox (fst st) (snd st) = outbox this w.
Proof.
  induction mid as [| s mid IH]; intros this w Ha Hnow Hall Hrep.
  - cbn. auto.
  - cbv zeta. rewrite run_cons.
    inversion Hall as [| ? ? Hs Hrest]; subst.
    destruct Hrep as [Hd Hrep].
    assert (Hn : Window.now w < Window.due c) by (apply Hnow; discriminate).
    destruct (armed_tick r c this w s Ha Hn Hs Hd) as (Ha1 & Hn1 & Hr1 & Ho1).
    cbv zeta in *.
    destruct (IH _ _ Ha1 (fun _ => Hn1) Hrest Hrep) as (Ha2 & Hr2 & Ho2).
    cbv zeta in *. split; [exact Ha2 | split; congruence].
Qed.

(** Once the clock reaches the expiry, [lastResult] is cleared. *)
Lemma armed_expires r c this w t :
  armed r c this w ->
  Window.due c <= t ->
  let st := ActiveScan.advance t this w in
  wf (fst st) (snd st) /\
  ActiveScan.lastResult (fst st) = None /\
  scans_of (Window.timers (snd st)) = [] /\
  emitted (snd st) = outbox this w.
Proof.
  intros (Hwf & Hl & He) Ht. cbv zeta.
  destruct (wf_advance t this w Hwf) as (Hwf0 & Hno0 & Hem0 & _).
  destruct (advance_effect t this w) as (_ & _ & Hl0).
  cbv zeta in *.
  assert (Hc : is_clear c = true /\ In c (Window.timers w)).
  { assert (Hin : In c (expiries w)) by (rewrite He; left; reflexivity).
    unfold expiries in Hin. apply filter_In in Hin. tauto. }
  assert (Hsome : existsb is_clear (ready_at t w) = true).
  { apply existsb_exists. exists c. split; [| tauto].
    unfold ready_at. apply filter_In. split; [tauto |].
    apply Z.leb_le. lia. }
  rewrite Hsome in Hl0. auto.
Qed.

(** C2, as the code has it.  A tick that accepts [r] records it as
    [lastResult], leaves exactly one expiry timer pending (the earlier one,
    if any, is cancelled), due one refractory period later, and queues the
    scan event.  From then on, as long as no other text is decoded, every
    tick before the expiry that decodes [r] again is rejected: the duplicate
    check, the timers and the events sent stay as they are.  Once the clock
    reaches the expiry, [lastResult] is cleared, and a tick that decodes [r]
    accepts it again, with a new expiry timer and a second scan event. *)
Theorem repeat_is_suppressed_until_expiry :
  forall (this : ActiveScan.t) (w : Window.t) (s0 : Z * Frame) (r : string)
         (mid : list (Z * Frame)) (s1 : Z * Frame),
    wf this w ->
    let st0 := ActiveScan.advance (fst s0) this w in
    accepted (snd s0) (fst st0) (snd st0) = Some r ->
    let st1 := ActiveScan.tick this w s0 in
    let n := Window.next_timer (snd st0) in
    let t0 := Window.now (snd st0) in
    let c := Window.mkTimer n
               (t0 + Z.max 0 (ActiveScan.refractoryPeriod (fst st0)))
               Window.ClearLastResult in
    let image0 :=
      if ActiveScan.captureImage (fst st0) then Some (dataURL (snd s0))
      else None in
    ActiveScan.lastResult (fst st1) = Some r /\
    ActiveScan.refractoryTimeout (fst st1) = Some n /\
    expiries (snd st1) = [c] /\
    outbox (fst st1) (snd st1) = emitted (snd st0) ++ [Window.Scan r image0] /\
    (forall f this' w',
       ActiveScan.lastResult this' = Some r ->
       decoded f this' w' = Some r ->
       same_suppressor (this', w') (ActiveScan._scan f this' w')) /\
    (Forall (fun s => t0 <= fst s < Window.due c) mid ->
     only_repeats r mid (fst st1) (snd st1) ->
     let st2 := ActiveScan.run mid (fst st1) (snd st1) in
     ActiveScan.lastResult (fst st2) = Some r /\
     ActiveScan.refractoryTimeout (fst st2) = Some n /\
     expiries (snd st2) = [c] /\
     outbox (fst st2) (snd st2) = outbox (fst st1) (snd st1) /\
     (Window.due c <= fst s1 ->
      let st3 := ActiveScan.advance (fst s1) (fst st2) (snd st2) in
      ActiveScan.lastResult (fst st3) = None /\
      (decoded (snd s1) (fst st3) (snd st3) = Some r ->
       let st4 := ActiveScan.tick (fst st2) (snd st2) s1 in
       let image1 :=
         if ActiveScan.captureImage (fst st3) then Some (dataURL (snd s1))
         else None in
       accepted (snd s1) (fst st3) (snd st3) = Some r /\
       ActiveScan.lastResult (fst st4) = Some r /\
       expiries (snd st4) =
         [Window.mkTimer (Window.next_timer (snd st3))
            (Window.now (snd st3)
             + Z.max 0 (ActiveScan.refractoryPeriod (fst st3)))
            Window.ClearLastResult] /\
       outbox (fst st4) (snd st4) =
         emitted (snd st0) ++ [Window.Scan r image0; Window.Scan r image1] /\
       forall t,
         emitted (snd (ActiveScan.advance t (fst st4) (snd st4))) =
           outbox (fst st4) (snd st4)))).
Proof.
  intros this w s0 r mid s1 Hwf st0 Hacc st1 n t0 c image0.
  destruct (wf_advance (fst s0) this w Hwf) as (Hwf0 & Hno0 & _).
  fold st0 in Hwf0, Hno0.
  destruct (accept_effect (snd s0) (fst st0) (snd st0) r Hwf0 Hno0 Hacc)
    as (Hwf1 & Hl1 & Hr1 & He1 & Ho1 & Hnow1 & Htr).
  cbv zeta in *.
  assert (Est1 : st1 = ActiveScan._scan (snd s0) (fst st0) (snd st0))
    by apply tick_eq.
  rewrite <- Est1 in Hwf1, Hl1, Hr1, He1, Ho1, Hnow1.
  split; [exact Hl1 | split; [exact Hr1 | split; [exact He1 |
    split; [exact Ho1 | split]]]].
  - intros f this' w' Hl Hd. apply scan_rejects.
    apply (repeat_not_accepted f this' w' r Hl). auto.
  - intros Hall Hrep.
    assert (Harm : armed r c (fst st1) (snd st1)) by (unfold armed; auto).
    assert (Hnow : mid <> [] -> Window.now (snd st1) < Window.due c).
    { destruct mid as [| s mid']; [intros H; contradiction |].
      intros _. inversion Hall as [| ? ? Hs _]; subst. rewrite Hnow1.
      unfold t0 in Hs. lia. }
    assert (Hall' : Forall (fun s => fst s < Window.due c) mid).
    { eapply Forall_impl; [| exact Hall]. cbn. intros a Ha. lia. }
    destruct (armed_run r c mid (fst st1) (snd st1) Harm Hnow Hall' Hrep)
      as (Harm2 & Hr2 & Ho2).
    cbv zeta in *.
    set (st2 := ActiveScan.run mid (fst st1) (snd st1)) in *.
    destruct Harm2 as (Hwf2 & Hl2 & He2).
    split; [exact Hl2 | split; [rewrite Hr2; exact Hr1 | split; [exact He2 |
      split; [exact Ho2 |]]]].
    intros Hdue.
    assert (Harm2 : armed r c (fst st2) (snd st2)) by (unfold armed; auto).
    destruct (armed_expires r c (fst st2) (snd st2) (fst s1) Harm2 Hdue)
      as (Hwf3 & Hl3 & Hno3 & Hem3).
    cbv zeta in *.
    set (st3 := ActiveScan.advance (fst s1) (fst st2) (snd st2)) in *.
    split; [exact Hl3 |].
    intros Hd.
    assert (Hacc3 : accepted (snd s1) (fst st3) (snd st3) = Some r).
    { unfold accepted. rewrite Hd, Hl3, Htr. reflexivity. }
    destruct (accept_effect (snd s1) (fst st3) (snd st3) r Hwf3 Hno3 Hacc3)
      as (Hwf4 & Hl4 & _ & He4 & Ho4 & _).
    cbv zeta in *.
    assert (Est4 : ActiveScan.tick (fst st2) (snd st2) s1 =
                   ActiveScan._scan (snd s1) (fst st3) (snd st3))
      by apply tick_eq.
    rewrite Est4.
    split; [exact Hacc3 | split; [exact Hl4 | split; [exact He4 | split]]].
    + rewrite Ho4, Hem3, Ho2, Ho1, <- app_assoc. reflexivity.
    + intros t. apply (wf_advance t _ _ Hwf4).
Qed.

Lemma wf_primed : wf (fst primed) (snd primed).
Proof. intros tm []. Qed.

Lemma repeat_is_suppressed_until_expiry_witness :
  outbox
    (fst (ActiveScan.tick
            (fst (ActiveScan.run [(50, frame_x); (109, frame_x)]
                    (fst (ActiveScan.tick (fst primed) (snd primed)
                            (10, frame_x)))
                    (snd (ActiveScan.tick (fst primed) (snd primed)
                            (10, frame_x)))))
            (snd (ActiveScan.run [(50, frame_x); (109, frame_x)]
                    (fst (ActiveScan.tick (fst primed) (snd primed)
                            (10, frame_x)))
                    (snd (ActiveScan.tick (fst primed) (snd primed)
                            (10, frame_x)))))
            (110, frame_x)))
    (snd (ActiveScan.tick
            (fst (ActiveScan.run [(50, frame_x); (109, frame_x)]
                    (fst (ActiveScan.tick (fst primed) (snd primed)
                            (10, frame_x)))
                    (snd (ActiveScan.tick (fst primed) (snd primed)
                            (10, frame_x)))))
            (snd (ActiveScan.run [(50, frame_x); (109, frame_x)]
                    (fst (ActiveScan.tick (fst primed) (snd primed)
                            (10, frame_x)))
                    (snd (ActiveScan.tick (fst primed) (snd primed)
                            (10, frame_x)))))
            (110, frame_x)))
  = [Window.Inactive; Window.Active;
     Window.Scan "X" None; Window.Scan "X" None].
Proof.
  assert (Hall : Forall (fun s : Z * Frame => 10 <= fst s < 110)
                   [(50, frame_x); (109, frame_x)]).
  { repeat constructor; cbn; lia. }
  assert (Hrep : only_repeats "X" [(50, frame_x); (109, frame_x)]
                   (fst (ActiveScan.tick (fst primed) (snd primed) (10, frame_x)))
                   (snd (ActiveScan.tick (fst primed) (snd primed) (10, frame_x)))).
  { split; [right; right; reflexivity |].
    split; [right; right; reflexivity | exact I]. }
  assert (Hdue : 110 <= 110) by lia.
  destruct (repeat_is_suppressed_until_expiry (fst primed) (snd primed)
              (10, frame_x) "X" [(50, frame_x); (109, frame_x)]
              (110, frame_x) wf_primed eq_refl)
    as (_ & _ & _ & _ & _ & Hmid).
  destruct (Hmid Hall Hrep) as (_ & _ & _ & _ & Hexp).
  destruct (Hexp Hdue) as (_ & Hfin).
  destruct (Hfin eq_refl) as (_ & _ & _ & Ho & _).
  etransitivity; [exact Ho | reflexivity].
Defined.

(** "A" at 10 ms, "B" at 20 ms, "A" again at 30 ms, with a refractory
    period of 100 ms: the second "A" is accepted and emitted. *)
Lemma repeat_after_other_result_is_accepted :
  ~ suppresses_every_repeat /\
  emitted (snd (ActiveScan.run
                  [(10, frame_a); (20, frame_b); (30, frame_a); (40, frame_a)]
                  (fst primed) (snd primed)))
  = [Window.Inactive; Window.Active; Window.Scan "A" None;
     Window.Scan "B" None; Window.Scan "A" None].
Proof.
  split; [| reflexivity].
  intros H.
  assert (Hall : Forall (fun s : Z * Frame => 10 <= fst s < 110)
                   [(20, frame_b)]).
  { repeat constructor; cbn; lia. }
  assert (Hs1 : 10 <= 30 < 110) by lia.
  pose proof (H (fst primed) (snd primed) (10, frame_a) "A"%string
                [(20, frame_b)] (30, frame_a) wf_primed eq_refl Hall Hs1
                eq_refl) as Habs.
  cbv in Habs. discriminate.
Qed.

(** * Further properties *)

(** ** Construction *)

(** X1: the constructor fails exactly when a video element is passed whose
    tag is not VIDEO, and then with 'Video must be a <video> element.';
    otherwise it yields a stopped scanner without camera, with an idle scan
    loop on a new analyzer, mirrored exactly when an element was passed and
    [mirror] is not [false], and emits [inactive] and nothing else. *)
Theorem constructor_checks_video_element :
  forall (opts : Opts) (w : Window.t),
    (forall tag, opts_video opts = Some tag -> tag <> "VIDEO"%string ->
       Scanner.new opts w = Err VideoNotVideoElement /\
       message VideoNotVideoElement = "Video must be a <video> element."%string) /\
    (opts_video opts = None \/ opts_video opts = Some "VIDEO"%string ->
     exists this,
       Scanner.new opts w = Ok (this, Window.log (Window.Emit Window.Inactive) w) /\
       Scanner._fsm this = Scanner.stopped /\
       Scanner._camera this = None /\
       Scanner._analyzer this = Analyzer.new /\
       ActiveScan._active (Scanner._scan this) = false /\
       ActiveScan._frameCount (Scanner._scan this) = 0 /\
       ActiveScan.lastResult (Scanner._scan this) = None /\
       ActiveScan.refractoryTimeout (Scanner._scan this) = None /\
       Scanner.src (Scanner.video_ this) = ""%string /\
       Scanner.autoplay (Scanner.video_ this) = true /\
       Scanner.mirrored (Scanner.video_ this) =
         match opts_video opts, opts_mirror opts with
         | Some _, Some false => false
         | Some _, _ => true
         | None, _ => false
         end).
Proof.
  intros opts w. split.
  - intros tag Hv Hn. split; [| reflexivity].
    unfold Scanner.new, Scanner._configureVideo. rewrite Hv.
    apply String.eqb_neq in Hn. rewrite Hn. reflexivity.
  - intros Hv. unfold Scanner.new, Scanner._configureVideo.
    destruct Hv as [-> | ->]; cbn; eexists; (split; [reflexivity |]);
      cbn; repeat split; destruct (opts_mirror opts) as [[|] |]; reflexivity.
Qed.

(** ** Page visibility *)

Lemma fsm_deactivate_active this w :
  Scanner._fsm this = Scanner.active ->
  Scanner.fsm_deactivate this w =
    Ok (Scanner.set_fsm Scanner.inactive (fst (Scanner.onleaveactive this w)),
        snd (Scanner.onleaveactive this w)).
Proof.
  intros H. unfold Scanner.fsm_deactivate, Scanner.fire, Scanner.lookup.
  rewrite H. cbn. destruct (Scanner.onleaveactive this w). reflexivity.
Qed.

Lemma onleaveactive_eq this w :
  Scanner.onleaveactive this w =
    (Scanner.set_scan (ActiveScan.stop (Scanner._scan this))
       (Scanner.set_video_src "" this),
     Window.log (Window.Emit Window.Inactive)
       (match Scanner._camera this with
        | Some c => Scanner.camera_stop c (Window.log (Window.VideoSrc "") w)
        | None => Window.log (Window.VideoSrc "") w
        end)).
Proof.
  unfold Scanner.onleaveactive, Scanner._disableScan, Scanner.emit. cbn.
  destruct (Scanner._camera this); reflexivity.
Qed.

(** X2: when the page reports a state other than 'visible' and
    [backgroundScan] is off, an active scanner becomes inactive: the video
    source is cleared, the loop is switched off, the stored camera is stopped
    once and [inactive] is emitted, in this order.  With [backgroundScan] on,
    or in a state other than [active] that the scanner rests in, only the
    recorded visibility changes. *)
Theorem hidden_page_deactivates :
  forall (state : string) (this : Scanner.t) (w : Window.t),
    state <> "visible"%string ->
    (Scanner.backgroundScan this = false ->
     Scanner._fsm this = Scanner.active ->
     forall c, Scanner._camera this = Some c ->
     exists this' w',
       Scanner.visibility_change state this w = Ok (this', w') /\
       Scanner._fsm this' = Scanner.inactive /\
       ActiveScan._active (Scanner._scan this') = false /\
       Scanner.src (Scanner.video_ this') = ""%string /\
       Scanner._camera this' = Some c /\
       Window.visibility w' = state /\
       Window.streaming w' =
         filter (fun i => negb (Nat.eqb i (camera_id c))) (Window.streaming w) /\
       Window.trace w' =
         Window.trace w ++
           [Window.VideoSrc ""; Window.CameraStop (camera_id c);
            Window.Emit Window.Inactive]) /\
    (Scanner.backgroundScan this = true \/
     Scanner._fsm this = Scanner.inactive \/
     Scanner._fsm this = Scanner.stopped ->
     Scanner.visibility_change state this w =
       Ok (this, Window.set_visibility state w)).
Proof.
  intros state this w Hs. apply String.eqb_neq in Hs.
  unfold Scanner.visibility_change. rewrite Hs. split.
  - intros Hbg Hf c Hc. rewrite Hbg. cbn.
    assert (Hcan : Scanner.can Scanner.deactivate this = true)
      by (unfold Scanner.can, Scanner.lookup; rewrite Hf; reflexivity).
    rewrite Hcan, (fsm_deactivate_active this _ Hf), onleaveactive_eq, Hc.
    eexists; eexists. split; [reflexivity |]. cbn.
    repeat split; try reflexivity; try exact Hc.
    repeat rewrite <- app_assoc. reflexivity.
  - intros [Hbg | [Hf | Hf]].
    + rewrite Hbg. reflexivity.
    + unfold Scanner.can, Scanner.lookup. rewrite Hf. cbn.
      rewrite andb_false_r. reflexivity.
    + unfold Scanner.can, Scanner.lookup. rewrite Hf. cbn.
      rewrite andb_false_r. reflexivity.
Qed.

Lemma hidden_page_deactivates_witness :
  exists this' w',
    Scanner.visibility_change "hidden" (fst running) (snd running)
    = Ok (this', w') /\
    Scanner._fsm this' = Scanner.inactive /\
    Window.streaming w' = [].
Proof.
  assert (Hs : "hidden"%string <> "visible"%string) by discriminate.
  destruct (proj1 (hidden_page_deactivates "hidden" (fst running) (snd running)
                     Hs) eq_refl eq_refl camera_x eq_refl)
    as (this' & w' & E & Hf & _ & _ & _ & _ & Hst & _).
  exists this', w'. split; [exact E | split; [exact Hf | exact Hst]].
Defined.

(** X3: when the page reports 'visible' nothing happens at once but the
    record of the visibility; the deferred callback then does nothing from
    [stopped] or [active], re-enters [active] from [inactive] with the stored
    camera (started, bound, loop started, [active] emitted), and rejects with
    'Camera is not defined.' from [inactive] when no camera is stored. *)
Theorem visible_page_reactivates :
  forall (this : Scanner.t) (w : Window.t),
    let w1 := Window.set_visibility "visible" w in
    Scanner.visibility_change "visible" this w = Ok (this, w1) /\
    (Scanner._fsm this = Scanner.stopped \/ Scanner._fsm this = Scanner.active ->
     Scanner.deferred_activate this w1 = Ok (this, w1)) /\
    (Scanner._fsm this = Scanner.inactive ->
     (forall c url,
        Scanner._camera this = Some c -> stream c = Some url ->
        enters_active c url w1 (Scanner.deferred_activate this w1)) /\
     (Scanner._camera this = None ->
      Scanner.deferred_activate this w1 = Err CameraNotDefined)).
Proof.
  intros this w w1. split; [reflexivity | split].
  - intros [Hf | Hf]; unfold Scanner.deferred_activate, Scanner.can,
      Scanner.lookup; rewrite Hf; reflexivity.
  - intros Hf.
    assert (Hcan : Scanner.can Scanner.activate this = true)
      by (apply can_activate_iff; auto).
    unfold Scanner.deferred_activate. rewrite Hcan. split.
    + intros c url Hc Hs. apply activate_with_camera; auto.
    + intros Hc. apply activate_without_camera; auto.
Qed.

(** ** What the life cycle leaves alone *)

Lemma same_loop_refl a : same_loop a a.
Proof. unfold same_loop. tauto. Qed.

Lemma same_loop_trans a b c : same_loop a b -> same_loop b c -> same_loop a c.
Proof. unfold same_loop. intuition congruence. Qed.

Lemma same_decoder_refl w : same_decoder w w.
Proof. unfold same_decoder. tauto. Qed.

Lemma same_decoder_trans a b c :
  same_decoder a b -> same_decoder b c -> same_decoder a c.
Proof. unfold same_decoder. intuition congruence. Qed.

(** Leaving [active] logs the release of the camera and the event, never a
    camera start. *)
Lemma stopped_from_effect this w :
  same_loop (Scanner._scan this) (Scanner._scan (fst (stopped_from this w))) /\
  same_decoder w (snd (stopped_from this w)) /\
  exists l,
    Window.trace (snd (stopped_from this w)) = Window.trace w ++ l /\
    (forall id, ~ In (Window.CameraStart id) l) /\
    events_of l =
      (if Scanner.state_eqb (Scanner._fsm this) Scanner.active
       then [Window.Inactive] else []).
Proof.
  unfold stopped_from. rewrite onleaveactive_eq.
  destruct this as [v bg cam scan st]. cbn.
  destruct st; cbn;
    try (split; [apply same_loop_refl | split; [apply same_decoder_refl |]];
         exists []; rewrite app_nil_r; cbn; auto).
  split; [unfold same_loop; cbn; tauto |].
  destruct cam as [c |]; cbn.
  - split; [unfold same_decoder; cbn; tauto |].
    exists [Window.VideoSrc ""; Window.CameraStop (camera_id c);
            Window.Emit Window.Inactive].
    repeat rewrite <- app_assoc. cbn. split; [reflexivity | split; [| reflexivity]].
    intros id [H | [H | [H | []]]]; discriminate.
  - split; [unfold same_decoder; cbn; tauto |].
    exists [Window.VideoSrc ""; Window.Emit Window.Inactive].
    repeat rewrite <- app_assoc. cbn. split; [reflexivity | split; [| reflexivity]].
    intros id [H | [H | []]]; discriminate.
Qed.

Lemma activate_effect cam this w this' w' :
  Scanner._fsm this = Scanner.started \/ Scanner._fsm this = Scanner.inactive ->
  Scanner.fsm_activate cam this w = Ok (this', w') ->
  same_loop (Scanner._scan this) (Scanner._scan this') /\
  same_decoder w w' /\
  (Scanner._fsm this' = Scanner.active \/ Scanner._fsm this' = Scanner.inactive) /\
  emitted w' =
    emitted w ++
      (if Scanner.state_eqb (Scanner._fsm this') Scanner.active
       then [Window.Active] else []).
Proof.
  intros Hf. rewrite (fsm_activate_eq cam this w Hf).
  destruct (Window.page_visible w || Scanner.backgroundScan this).
  - unfold Scanner.onenteractive, Scanner._enableScan. cbn.
    destruct (Scanner.resolve cam (Scanner._camera this)) as [c |];
      [| discriminate].
    unfold Scanner.camera_start. destruct (stream c) as [url |];
      [| discriminate].
    cbn. intros H. injection H as <- <-. cbn.
    split; [unfold same_loop; cbn; tauto |].
    split; [unfold same_decoder; cbn; tauto |].
    split; [auto |]. solve_emitted.
  - intros H. injection H as <- <-. cbn.
    split; [apply same_loop_refl |]. split; [apply same_decoder_refl |].
    split; [auto |]. rewrite app_nil_r. reflexivity.
Qed.

(** X4: on a page that is not visible and without [backgroundScan],
    [start(camera)] completes in [inactive] whatever the camera is: no
    camera is started and the argument is not stored.  If no camera was
    stored before, the activation deferred when the page becomes visible
    rejects with 'Camera is not defined.'. *)
Theorem start_on_hidden_page_drops_camera :
  forall (cam : option Camera) (this : Scanner.t) (w : Window.t),
    Window.page_visible w || Scanner.backgroundScan this = false ->
    exists this' w',
      Scanner.start cam this w = Ok (this', w') /\
      Scanner._fsm this' = Scanner.inactive /\
      Scanner._camera this' = Scanner._camera this /\
      (forall id, ~ In (Window.CameraStart id) (calls_since w w')) /\
      (Scanner._camera this = None ->
       Scanner.deferred_activate this' (Window.set_visibility "visible" w') =
         Err CameraNotDefined).
Proof.
  intros cam this w Hv.
  pose proof (stopped_from_facts this w) as (Hst & Hcam & Hbg & Hvis).
  destruct (stopped_from_effect this w) as (_ & _ & l & Ht & Hl & _).
  assert (Hdef : forall s w0,
            Scanner._camera s = None ->
            Scanner.deferred_activate (Scanner.set_fsm Scanner.inactive s)
              (Window.set_visibility "visible" w0) = Err CameraNotDefined).
  { intros s w0 Hc. unfold Scanner.deferred_activate.
    assert (Hcan : Scanner.can Scanner.activate
                     (Scanner.set_fsm Scanner.inactive s) = true)
      by (apply can_activate_iff; auto).
    rewrite Hcan. apply activate_without_camera; auto. }
  rewrite start_eq.
  destruct (Scanner.state_eqb (Scanner._fsm this) Scanner.stopped).
  - rewrite (fsm_activate_eq cam (Scanner.set_fsm Scanner.started this) w
               (or_introl eq_refl)). cbn. rewrite Hv.
    eexists; eexists. split; [reflexivity |]. cbn.
    split; [reflexivity | split; [reflexivity | split]].
    + intros id. unfold calls_since.
      rewrite <- (app_nil_r (Window.trace w)) at 2.
      rewrite skipn_length_app. intros [].
    + intros Hc. apply (Hdef (Scanner.set_fsm Scanner.started this) w Hc).
  - rewrite (fsm_activate_eq cam
               (Scanner.set_fsm Scanner.started (fst (stopped_from this w)))
               (snd (stopped_from this w)) (or_introl eq_refl)). cbn.
    unfold Window.page_visible in *. rewrite Hvis, Hbg, Hv.
    eexists; eexists. split; [reflexivity |]. cbn.
    split; [reflexivity | split; [exact Hcam | split]].
    + intros id. unfold calls_since. rewrite Ht, skipn_length_app. apply Hl.
    + intros Hc.
      apply (Hdef (Scanner.set_fsm Scanner.started (fst (stopped_from this w)))
               (snd (stopped_from this w))).
      cbn. rewrite Hcam. exact Hc.
Qed.

Lemma start_on_hidden_page_drops_camera_witness :
  exists this' w',
    Scanner.start (Some camera_x) fresh_scanner
      (Window.set_visibility "hidden" fresh_window) = Ok (this', w') /\
    Scanner._fsm this' = Scanner.inactive /\
    Scanner._camera this' = None /\
    Scanner.deferred_activate this' (Window.set_visibility "visible" w') =
      Err CameraNotDefined.
Proof.
  destruct (start_on_hidden_page_drops_camera (Some camera_x) fresh_scanner
              (Window.set_visibility "hidden" fresh_window) eq_refl)
    as (this' & w' & E & Hf & Hc & _ & Hd).
  exists this', w'. split; [exact E | split; [exact Hf | split; [exact Hc |]]].
  exact (Hd eq_refl).
Defined.

Lemma last_status_from (evs : list Window.event) :
  forall acc,
    fold_left
      (fun acc e => match e with Window.Scan _ _ => acc | _ => Some e end)
      evs acc =
    match last_status evs with
    | Some e => Some e
    | None => acc
    end.
Proof.
  unfold last_status. induction evs as [| e evs IH]; intros acc; cbn.
  - reflexivity.
  - rewrite IH. rewrite (IH (match e with Window.Scan _ _ => None | _ => Some e end)).
    destruct (fold_left _ evs None); [reflexivity |].
    destruct e; reflexivity.
Qed.

Lemma last_status_app (a b : list Window.event) :
  last_status (a ++ b) =
    match last_status b with
    | Some e => Some e
    | None => last_status a
    end.
Proof.
  unfold last_status at 1. rewrite fold_left_app. apply last_status_from.
Qed.

Lemma last_status_scans (q : list Window.timer) : last_status (scans_of q) = None.
Proof.
  induction q as [| tm q IH]; cbn [scans_of]; [reflexivity |].
  destruct (Window.callback tm) as [| r i]; [exact IH |].
  change (Window.Scan r i :: scans_of q)
    with ([Window.Scan r i] ++ scans_of q).
  rewrite last_status_app, IH. reflexivity.
Qed.

Lemma visibility_change_effect state this w this' w' :
  Scanner.visibility_change state this w = Ok (this', w') ->
  same_loop (Scanner._scan this) (Scanner._scan this') /\
  same_decoder w w' /\
  (Scanner._fsm this <> Scanner.started ->
   Scanner._fsm this' <> Scanner.started /\
   (last_status (emitted w) = Some (status_event this) ->
    last_status (emitted w') = Some (status_event this'))).
Proof.
  unfold Scanner.visibility_change.
  destruct (state =? "visible")%string.
  - intros H. injection H as <- <-.
    split; [apply same_loop_refl |]. split; [unfold same_decoder; cbn; tauto |].
    auto.
  - destruct (negb (Scanner.backgroundScan this)
              && Scanner.can Scanner.deactivate this) eqn:E.
    + apply andb_true_iff in E. destruct E as [_ Hcan].
      destruct (Scanner._fsm this) eqn:Hf;
        try (unfold Scanner.can, Scanner.lookup in Hcan; rewrite Hf in Hcan;
             discriminate).
      * unfold Scanner.fsm_deactivate, Scanner.fire, Scanner.lookup.
        rewrite Hf. cbn. intros H. injection H as <- <-. cbn.
        split; [apply same_loop_refl |].
        split; [unfold same_decoder; cbn; tauto |].
        intros Hn; exfalso; apply Hn; reflexivity.
      * rewrite (fsm_deactivate_active this _ Hf), onleaveactive_eq.
        intros H. injection H as <- <-.
        split; [unfold same_loop; cbn; tauto |].
        split; [destruct (Scanner._camera this); unfold same_decoder; cbn; tauto |].
        intros _. split; [cbn; discriminate |]. intros _.
        cbn [snd]. rewrite emitted_log, last_status_app. reflexivity.
    + intros H. injection H as <- <-.
      split; [apply same_loop_refl |]. split; [unfold same_decoder; cbn; tauto |].
      auto.
Qed.

Lemma set_started_can this :
  Scanner._fsm (Scanner.set_fsm Scanner.started this) = Scanner.started \/
  Scanner._fsm (Scanner.set_fsm Scanner.started this) = Scanner.inactive.
Proof. left. reflexivity. Qed.

Lemma start_effect cam this w this' w' :
  Scanner.start cam this w = Ok (this', w') ->
  same_loop (Scanner._scan this) (Scanner._scan this') /\
  same_decoder w w' /\
  (Scanner._fsm this' = Scanner.active \/ Scanner._fsm this' = Scanner.inactive) /\
  emitted w' =
    emitted w ++
      (if Scanner.state_eqb (Scanner._fsm this) Scanner.active
       then [Window.Inactive] else []) ++
      (if Scanner.state_eqb (Scanner._fsm this') Scanner.active
       then [Window.Active] else []).
Proof.
  rewrite start_eq.
  destruct (Scanner.state_eqb (Scanner._fsm this) Scanner.stopped) eqn:E.
  - intros H.
    destruct (activate_effect cam _ w this' w' (set_started_can _) H)
      as (H1 & H2 & H3 & H4).
    split; [exact H1 | split; [exact H2 | split; [exact H3 |]]].
    rewrite H4. destruct (Scanner._fsm this); try discriminate. reflexivity.
  - intros H.
    destruct (stopped_from_effect this w) as (G1 & G2 & l & Gt & _ & Ge).
    destruct (activate_effect cam _ _ this' w' (set_started_can _) H)
      as (H1 & H2 & H3 & H4).
    split; [exact (same_loop_trans _ _ _ G1 H1) |].
    split; [exact (same_decoder_trans _ _ _ G2 H2) |].
    split; [exact H3 |].
    rewrite H4. unfold emitted at 1. rewrite Gt, events_of_app, Ge.
    rewrite <- app_assoc. reflexivity.
Qed.

Lemma stop_effect this w this' w' :
  Scanner.stop this w = Ok (this', w') ->
  same_loop (Scanner._scan this) (Scanner._scan this') /\
  same_decoder w w' /\
  (Scanner._fsm this' = Scanner.stopped) /\
  emitted w' =
    emitted w ++
      (if Scanner.state_eqb (Scanner._fsm this) Scanner.active
       then [Window.Inactive] else []).
Proof.
  rewrite stop_eq.
  destruct (Scanner.state_eqb (Scanner._fsm this) Scanner.stopped) eqn:E.
  - intros H. injection H as <- <-.
    split; [apply same_loop_refl |]. split; [apply same_decoder_refl |].
    destruct (Scanner._fsm this); try discriminate.
    split; [reflexivity |]. cbn. rewrite app_nil_r. reflexivity.
  - intros H. injection H as H.
    destruct (stopped_from_effect this w) as (G1 & G2 & l & Gt & _ & Ge).
    pose proof (proj1 (stopped_from_facts this w)) as Hst.
    rewrite H in *. cbn in *.
    split; [exact G1 | split; [exact G2 | split; [exact Hst |]]].
    unfold emitted at 1. rewrite Gt, events_of_app, Ge. reflexivity.
Qed.

Lemma deferred_activate_effect this w this' w' :
  Scanner.deferred_activate this w = Ok (this', w') ->
  same_loop (Scanner._scan this) (Scanner._scan this') /\
  same_decoder w w' /\
  (Scanner._fsm this <> Scanner.started ->
   Scanner._fsm this' <> Scanner.started /\
   (last_status (emitted w) = Some (status_event this) ->
    last_status (emitted w') = Some (status_event this'))).
Proof.
  unfold Scanner.deferred_activate.
  destruct (Scanner.can Scanner.activate this) eqn:Hcan.
  - apply can_activate_iff in Hcan. intros H.
    destruct (activate_effect None this w this' w' Hcan H)
      as (H1 & H2 & H3 & H4).
    split; [exact H1 | split; [exact H2 |]].
    intros Hn. split; [destruct H3 as [-> | ->]; discriminate |].
    destruct Hcan as [E | E]; [contradiction |].
    unfold status_event. rewrite H4, last_status_app, E.
    destruct H3 as [-> | ->]; cbn; auto.
  - intros H. injection H as <- <-.
    split; [apply same_loop_refl |]. split; [apply same_decoder_refl |].
    auto.
Qed.

(** X5: [start], [stop], a visibility change and the deferred activation
    never touch the frame counter, the analyzer, the periods,
    [lastResult], the expiry timer or the timer queue: a restart does not
    reset the duplicate check, and what the decoder left in the window stays
    there. *)
Theorem life_cycle_keeps_scan_state :
  forall (o : op) (this : Scanner.t) (w : Window.t)
         (this' : Scanner.t) (w' : Window.t),
    is_lifecycle o = true ->
    exec o this w = Ok (this', w') ->
    same_loop (Scanner._scan this) (Scanner._scan this') /\
    same_decoder w w'.
Proof.
  intros o this w this' w' Hl H. destruct o; try discriminate; cbn in H.
  - destruct (start_effect _ _ _ _ _ H) as (H1 & H2 & _). auto.
  - destruct (stop_effect _ _ _ _ H) as (H1 & H2 & _). auto.
  - destruct (visibility_change_effect _ _ _ _ _ H) as (H1 & H2 & _). auto.
  - destruct (deferred_activate_effect _ _ _ _ H) as (H1 & H2 & _). auto.
Qed.

Lemma life_cycle_keeps_scan_state_witness :
  same_loop (Scanner._scan fresh_scanner) (Scanner._scan (fst running)) /\
  same_decoder fresh_window (snd running).
Proof.
  exact (life_cycle_keeps_scan_state (OpStart (Some camera_x)) fresh_scanner
           fresh_window (fst running) (snd running) eq_refl eq_refl).
Defined.

(** ** What holds after any sequence of operations *)

Lemma tick_emitted this w s :
  emitted (snd (ActiveScan.tick this w s)) =
    emitted w ++ scans_of (ready_at (fst s) w).
Proof.
  rewrite tick_eq, scan_emitted.
  apply (advance_effect (fst s) this w).
Qed.

Lemma settled_exec (o : op) this w this' w' :
  settled this w -> exec o this w = Ok (this', w') -> settled this' w'.
Proof.
  intros (Hn & HI & HJ) H.
  pose proof (Inv_exec o this w this' w' HI H) as HI'.
  unfold settled.
  assert (Hgoal : Scanner._fsm this' <> Scanner.started /\
                  last_status (emitted w') = Some (status_event this'));
    [| destruct Hgoal; auto].
  destruct o; cbn in H.
  - destruct (start_effect _ _ _ _ _ H) as (_ & _ & Hs & E).
    split; [destruct Hs as [-> | ->]; discriminate |].
    unfold status_event in *. rewrite E, app_assoc, !last_status_app.
    destruct (Scanner.state_eqb (Scanner._fsm this') Scanner.active);
      [reflexivity |].
    destruct (Scanner.state_eqb (Scanner._fsm this) Scanner.active);
      [reflexivity | exact HJ].
  - destruct (stop_effect _ _ _ _ H) as (_ & _ & Es & E).
    split; [rewrite Es; discriminate |].
    unfold status_event in *. rewrite E, Es, last_status_app.
    destruct (Scanner.state_eqb (Scanner._fsm this) Scanner.active);
      [reflexivity | exact HJ].
  - destruct (visibility_change_effect _ _ _ _ _ H) as (_ & _ & E).
    destruct (E Hn) as [E1 E2]. auto.
  - destruct (deferred_activate_effect _ _ _ _ H) as (_ & _ & E).
    destruct (E Hn) as [E1 E2]. auto.
  - unfold Scanner.tick in H.
    pose proof (tick_emitted (Scanner._scan this) w s) as Et.
    destruct (ActiveScan.tick (Scanner._scan this) w s) as [sc w1].
    injection H as <- <-. cbn in Et. split; [exact Hn |].
    rewrite Et, last_status_app, last_status_scans. exact HJ.
  - injection H as <- <-. auto.
  - injection H as <- <-. auto.
  - injection H as <- <-. auto.
Qed.

Lemma settled_new opts w this w' :
  Window.streaming w = [] ->
  Scanner.new opts w = Ok (this, w') -> settled this w'.
Proof.
  intros Hs H. pose proof (Inv_new opts w this w' Hs H) as HI.
  unfold Scanner.new in H.
  destruct (Scanner._configureVideo opts); cbn in H; [| discriminate].
  injection H as <- <-. unfold settled, status_event.
  split; [cbn; discriminate | split; [exact HI |]].
  unfold Scanner.emit. rewrite emitted_log, last_status_app. reflexivity.
Qed.

Lemma settled_exec_all (ops : list op) :
  forall this w this' w',
    settled this w -> exec_all ops this w = Ok (this', w') -> settled this' w'.
Proof.
  induction ops as [| o ops IH]; intros this w this' w' Hs H; cbn in H.
  - injection H as <- <-. exact Hs.
  - destruct (exec o this w) as [[this1 w1] |] eqn:E; cbn in H; [| discriminate].
    exact (IH _ _ _ _ (settled_exec o _ _ _ _ Hs E) H).
Qed.

(** X6: after any sequence of operations on a new scanner that all
    complete, the machine rests in [stopped], [active] or [inactive], never
    in [started]; in [active] the stored camera, and only it, is streaming
    and the scan loop is on; in the other states no camera is streaming and
    the loop is off. *)
Theorem camera_streams_exactly_while_active :
  forall (opts : Opts) (w0 : Window.t) (this0 : Scanner.t) (w1 : Window.t)
         (ops : list op) (this : Scanner.t) (w : Window.t),
    Window.streaming w0 = [] ->
    Scanner.new opts w0 = Ok (this0, w1) ->
    exec_all ops this0 w1 = Ok (this, w) ->
    Scanner._fsm this <> Scanner.started /\
    (Scanner._fsm this = Scanner.active ->
     (exists c, Scanner._camera this = Some c /\
                Window.streaming w = [camera_id c]) /\
     ActiveScan._active (Scanner._scan this) = true) /\
    (Scanner._fsm this <> Scanner.active ->
     Window.streaming w = [] /\
     ActiveScan._active (Scanner._scan this) = false).
Proof.
  intros opts w0 this0 w1 ops this w Hs Hnew Hex.
  destruct (settled_exec_all ops _ _ _ _ (settled_new _ _ _ _ Hs Hnew) Hex)
    as (Hn & HI & _).
  split; [exact Hn |]. unfold Inv in HI.
  destruct (Scanner._fsm this); split; intros H;
    try discriminate; try exact HI; exfalso; apply H; reflexivity.
Qed.

Lemma camera_streams_exactly_while_active_witness :
  Scanner._fsm (fst session_end) = Scanner.active /\
  Window.streaming (snd session_end) = [camera_id camera_x] /\
  ActiveScan._active (Scanner._scan (fst session_end)) = true.
Proof.
  destruct (camera_streams_exactly_while_active default_opts
              (Window.fresh "visible") fresh_scanner fresh_window session
              (fst session_end) (snd session_end) eq_refl eq_refl eq_refl)
    as (_ & Ha & _).
  destruct (Ha eq_refl) as ((c & Hc & Hs) & Hact).
  split; [reflexivity | split; [reflexivity | exact Hact]].
Defined.

(** X7: after any sequence of operations on a new scanner that all
    complete, the last [active] or [inactive] event that was emitted says
    whether the machine is in [active]; the constructor's [inactive] is the
    first. *)
Theorem last_status_event_names_state :
  forall (opts : Opts) (w0 : Window.t) (this0 : Scanner.t) (w1 : Window.t)
         (ops : list op) (this : Scanner.t) (w : Window.t),
    Window.streaming w0 = [] ->
    Scanner.new opts w0 = Ok (this0, w1) ->
    exec_all ops this0 w1 = Ok (this, w) ->
    last_status (emitted w) =
      Some (if Scanner.state_eqb (Scanner._fsm this) Scanner.active
            then Window.Active else Window.Inactive).
Proof.
  intros opts w0 this0 w1 ops this w Hs Hnew Hex.
  destruct (settled_exec_all ops _ _ _ _ (settled_new _ _ _ _ Hs Hnew) Hex)
    as (_ & _ & HJ).
  exact HJ.
Qed.

Lemma last_status_event_names_state_witness :
  emitted (snd session_end) =
    [Window.Inactive; Window.Active; Window.Inactive; Window.Active] /\
  last_status (emitted (snd session_end)) = Some Window.Active.
Proof.
  split; [reflexivity |].
  exact (last_status_event_names_state default_opts (Window.fresh "visible")
           fresh_scanner fresh_window session (fst session_end)
           (snd session_end) eq_refl eq_refl eq_refl).
Defined.

(** ** The frame callbacks of a stopped loop *)

Lemma count_frames_app (a b : list Window.effect) :
  count_frames (a ++ b) = count_frames a + count_frames b.
Proof.
  induction a as [| e a IH]; cbn -[Z.add]; [reflexivity |].
  destruct e; rewrite IH; lia.
Qed.

Ltac solve_frames :=
  unfold frames_requested; cbn -[Z.add count_frames];
  repeat rewrite count_frames_app; cbn -[Z.add]; lia.

Lemma analyze_frames f an w :
  frames_requested (snd (Analyzer.analyze f an w)) = frames_requested w.
Proof.
  unfold Analyzer.analyze.
  destruct (negb (truthy_number (videoWidth f))); [solve_frames |].
  destruct (negb (Analyzer.has_buffer an)); [solve_frames |].
  destruct (truthy_number (decode_status f)); [solve_frames |].
  cbn -[Z.add count_frames].
  destruct (fold_left Analyzer.decodeCallback (decode_chunks f)
              (Window.zxDecodeResult w)); solve_frames.
Qed.

Lemma deliver_frames f a this w :
  frames_requested (snd (deliver f a this w)) = frames_requested w.
Proof.
  unfold deliver. destruct a as [[result c] |]; [| reflexivity].
  destruct (negb (truthy_string result) || _); [reflexivity |].
  destruct (ActiveScan.refractoryTimeout this); reflexivity.
Qed.

Lemma scan_frames f this w :
  frames_requested (snd (ActiveScan._scan f this w)) =
    frames_requested w + (if ActiveScan._active this then 1 else 0).
Proof.
  destruct (ActiveScan._active this) eqn:Ha;
    [| rewrite (scan_idle f this w Ha); cbn; lia].
  destruct (Z.eq_dec (ActiveScan._frameCount this + 1)
              (ActiveScan.scanPeriod this)) as [He | Hn];
    [| rewrite (scan_skip f this w Ha Hn); solve_frames].
  rewrite (scan_analyze f this w Ha He). cbv zeta.
  rewrite deliver_frames, analyze_frames. solve_frames.
Qed.

Lemma run_tasks_frames (ready : list Window.timer) :
  forall this w,
    frames_requested (snd (fold_left ActiveScan.run_task ready (this, w)))
    = frames_requested w.
Proof.
  induction ready as [| tm ready IH]; intros this w; cbn; [reflexivity |].
  destruct (Window.callback tm); rewrite IH; [reflexivity | solve_frames].
Qed.

Lemma advance_frames t this w :
  frames_requested (snd (ActiveScan.advance t this w)) = frames_requested w.
Proof.
  unfold ActiveScan.advance.
  destruct (partition _ (Window.timers w)) as [ready waiting].
  rewrite run_tasks_frames. reflexivity.
Qed.

Lemma tick_frames this w s :
  let st := ActiveScan.tick this w s in
  frames_requested (snd st) =
    frames_requested w + (if ActiveScan._active this then 1 else 0) /\
  ActiveScan._active (fst st) = ActiveScan._active this /\
  (ActiveScan._active this = false ->
   analyses (snd st) = analyses w /\
   ActiveScan._frameCount (fst st) = ActiveScan._frameCount this /\
   ActiveScan._analyzer (fst st) = ActiveScan._analyzer this).
Proof.
  cbv zeta. rewrite tick_eq.
  pose proof (advance_same (fst s) this w) as ((_ & _ & _ & Hact) & Hfc & Han & _).
  pose proof (advance_frames (fst s) this w) as Hfr.
  pose proof (advance_analyses (fst s) this w) as Hal.
  cbv zeta in *.
  set (this0 := fst (ActiveScan.advance (fst s) this w)) in *.
  set (w0 := snd (ActiveScan.advance (fst s) this w)) in *.
  pose proof (scan_same (snd s) this0 w0) as (_ & (_ & _ & _ & Hact')).
  rewrite scan_frames, Hfr, Hact, Hact'.
  split; [reflexivity | split; [exact Hact |]].
  intros Ha. rewrite Ha in Hact.
  rewrite (scan_idle (snd s) this0 w0 Hact). cbn. auto.
Qed.

(** X8: every frame callback of an active loop requests exactly one
    further animation frame, and a callback that fires after [stop()]
    requests none: the chain ends.  Such callbacks also never call [analyze]
    and leave the frame counter and the analyzer as they are. *)
Theorem stopped_loop_requests_no_frames :
  forall (sched : list (Z * Frame)) (this : ActiveScan.t) (w : Window.t),
    let st := ActiveScan.run sched this w in
    frames_requested (snd st) =
      frames_requested w +
      (if ActiveScan._active this then Z.of_nat (List.length sched) else 0) /\
    ActiveScan._active (fst st) = ActiveScan._active this /\
    (ActiveScan._active this = false ->
     analyses (snd st) = analyses w /\
     ActiveScan._frameCount (fst st) = ActiveScan._frameCount this /\
     ActiveScan._analyzer (fst st) = ActiveScan._analyzer this).
Proof.
  induction sched as [| s sched IH]; intros this w.
  - cbn -[Z.add]. split; [destruct (ActiveScan._active this); lia | auto].
  - cbv zeta. rewrite run_cons.
    destruct (tick_frames this w s) as (H1 & H2 & H3). cbv zeta in *.
    destruct (IH (fst (ActiveScan.tick this w s)) (snd (ActiveScan.tick this w s)))
      as (G1 & G2 & G3).
    cbv zeta in *. rewrite G1, G2, H1, H2.
    split; [| split; [reflexivity |]].
    + cbn [List.length]. destruct (ActiveScan._active this); lia.
    + intros Ha. rewrite Ha in H2. destruct (H3 Ha) as (A1 & A2 & A3).
      destruct (G3 H2) as (B1 & B2 & B3). split; [| split]; congruence.
Qed.

(** ** More on acceptance *)

Lemma wf_tick this w s :
  wf this w ->
  wf (fst (ActiveScan.tick this w s)) (snd (ActiveScan.tick this w s)) /\
  (List.length (expiries w) <= 1 ->
   List.length (expiries (snd (ActiveScan.tick this w s))) <= 1)%nat.
Proof.
  intros Hwf. rewrite tick_eq.
  destruct (wf_advance (fst s) this w Hwf) as (Hwf0 & Hno0 & _ & He0).
  cbv zeta in *.
  set (this0 := fst (ActiveScan.advance (fst s) this w)) in *.
  set (w0 := snd (ActiveScan.advance (fst s) this w)) in *.
  destruct (accepted (snd s) this0 w0) as [r |] eqn:Ea.
  - destruct (accept_effect (snd s) this0 w0 r Hwf0 Hno0 Ea)
      as (Hwf1 & _ & _ & He1 & _).
    cbv zeta in *. split; [exact Hwf1 |]. intros _. rewrite He1. cbn. lia.
  - destruct (reject_effect (snd s) this0 w0 Hwf0 Ea)
      as (Hwf1 & _ & _ & _ & He1).
    cbv zeta in *. split; [exact Hwf1 |]. intros Hle. rewrite He1, He0.
    eapply Nat.le_trans; [apply filter_length_le | exact Hle].
Qed.

(** X9: at any point of any run of the loop at most one expiry timer is
    pending, it is the one [refractoryTimeout] names, and every queued
    emission is already due. *)
Theorem at_most_one_expiry_timer :
  forall (sched : list (Z * Frame)) (this : ActiveScan.t) (w : Window.t),
    wf this w ->
    (List.length (expiries w) <= 1)%nat ->
    let st := ActiveScan.run sched this w in
    (List.length (expiries (snd st)) <= 1)%nat /\
    (forall tm, In tm (expiries (snd st)) ->
       ActiveScan.refractoryTimeout (fst st) = Some (Window.timer_id tm)) /\
    (forall tm, In tm (Window.timers (snd st)) -> is_clear tm = false ->
       Window.due tm <= Window.now (snd st)).
Proof.
  intros sched.
  assert (H : forall this w, wf this w ->
            (List.length (expiries w) <= 1)%nat ->
            wf (fst (ActiveScan.run sched this w))
               (snd (ActiveScan.run sched this w)) /\
            (List.length (expiries (snd (ActiveScan.run sched this w))) <= 1)%nat).
  { induction sched as [| s sched IH]; intros this w Hwf Hle; [cbn; auto |].
    rewrite run_cons. destruct (wf_tick this w s Hwf) as [H1 H2].
    apply IH; auto. }
  intros this w Hwf Hle. cbv zeta. destruct (H this w Hwf Hle) as [Hwf' Hle'].
  split; [exact Hle' | split].
  - intros tm Hin. unfold expiries in Hin. apply filter_In in Hin.
    destruct Hin as [Hin Hc]. apply (Hwf' tm Hin). exact Hc.
  - intros tm Hin Hc. apply (Hwf' tm Hin). exact Hc.
Qed.

Lemma at_most_one_expiry_timer_witness :
  Nat.le
    (List.length
       (expiries
          (snd (ActiveScan.run [(10, frame_a); (20, frame_b); (30, frame_a)]
                  (fst primed) (snd primed)))))
    1.
Proof.
  assert (Hle : (List.length (expiries (snd primed)) <= 1)%nat) by (cbn; lia).
  exact (proj1 (at_most_one_expiry_timer
                  [(10, frame_a); (20, frame_b); (30, frame_a)]
                  (fst primed) (snd primed) wf_primed Hle)).
Defined.

(** X10: the frame callback that accepts a result emits nothing itself;
    the scan event is emitted when the loop next turns to its timers, once,
    with the snapshot exactly when [captureImage] was set at the time of the
    callback. *)
Theorem scan_event_is_emitted_on_a_later_turn :
  forall (this : ActiveScan.t) (w : Window.t) (s : Z * Frame) (r : string)
         (t : Z),
    wf this w ->
    let st0 := ActiveScan.advance (fst s) this w in
    accepted (snd s) (fst st0) (snd st0) = Some r ->
    let st := ActiveScan.tick this w s in
    let image :=
      if ActiveScan.captureImage (fst st0) then Some (dataURL (snd s))
      else None in
    emitted (snd st) = emitted (snd st0) /\
    emitted (snd (ActiveScan.advance t (fst st) (snd st))) =
      emitted (snd st0) ++ [Window.Scan r image] /\
    scans_of (Window.timers (snd (ActiveScan.advance t (fst st) (snd st)))) = [].
Proof.
  intros this w s r t Hwf st0 Hacc st image.
  destruct (wf_advance (fst s) this w Hwf) as (Hwf0 & Hno0 & _).
  fold st0 in Hwf0, Hno0.
  destruct (accept_effect (snd s) (fst st0) (snd st0) r Hwf0 Hno0 Hacc)
    as (Hwf1 & _ & _ & _ & Ho1 & _).
  cbv zeta in Hwf1, Ho1.
  assert (Est : st = ActiveScan._scan (snd s) (fst st0) (snd st0))
    by apply tick_eq.
  rewrite <- Est in Hwf1, Ho1.
  destruct (wf_advance t (fst st) (snd st) Hwf1) as (_ & Hno2 & Hem2 & _).
  cbv zeta in Hno2, Hem2.
  split; [rewrite Est; apply scan_emitted | split; [| exact Hno2]].
  rewrite Hem2. exact Ho1.
Qed.

Lemma scan_event_is_emitted_on_a_later_turn_witness :
  emitted
    (snd (ActiveScan.advance 11
            (fst (ActiveScan.tick (fst primed) (snd primed) (10, frame_x)))
            (snd (ActiveScan.tick (fst primed) (snd primed) (10, frame_x)))))
  = [Window.Inactive; Window.Active; Window.Scan "X" None].
Proof.
  destruct (scan_event_is_emitted_on_a_later_turn (fst primed) (snd primed)
              (10, frame_x) "X" 11 wf_primed eq_refl) as (_ & H & _).
  etransitivity; [exact H | reflexivity].
Defined.

Lemma armed_expires_now r c this w t :
  armed r c this w ->
  Window.due c <= Z.max (Window.now w) t ->
  let st := ActiveScan.advance t this w in
  wf (fst st) (snd st) /\
  ActiveScan.lastResult (fst st) = None.
Proof.
  intros (Hwf & Hl & He) Ht. cbv zeta.
  destruct (wf_advance t this w Hwf) as (Hwf0 & _).
  destruct (advance_effect t this w) as (_ & _ & Hl0).
  cbv zeta in *.
  assert (Hc : is_clear c = true /\ In c (Window.timers w)).
  { assert (Hin : In c (expiries w)) by (rewrite He; left; reflexivity).
    unfold expiries in Hin. apply filter_In in Hin. tauto. }
  assert (Hsome : existsb is_clear (ready_at t w) = true).
  { apply existsb_exists. exists c. split; [| tauto].
    unfold ready_at. apply filter_In. split; [tauto |].
    apply Z.leb_le. exact Ht. }
  rewrite Hsome in Hl0. auto.
Qed.

(** X11: with a refractory period of zero or less, the expiry timer is
    due at once: whenever the loop next turns to its timers [lastResult] is
    cleared, so the very next tick that decodes the same text accepts it
    again. *)
Theorem zero_refractory_period_suppresses_nothing :
  forall (this : ActiveScan.t) (w : Window.t) (s0 s1 : Z * Frame) (r : string),
    wf this w ->
    let st0 := ActiveScan.advance (fst s0) this w in
    accepted (snd s0) (fst st0) (snd st0) = Some r ->
    ActiveScan.refractoryPeriod (fst st0) <= 0 ->
    let st1 := ActiveScan.tick this w s0 in
    let st2 := ActiveScan.advance (fst s1) (fst st1) (snd st1) in
    ActiveScan.lastResult (fst st1) = Some r /\
    ActiveScan.lastResult (fst st2) = None /\
    (decoded (snd s1) (fst st2) (snd st2) = Some r ->
     accepted (snd s1) (fst st2) (snd st2) = Some r).
Proof.
  intros this w s0 s1 r Hwf st0 Hacc HR st1 st2.
  destruct (wf_advance (fst s0) this w Hwf) as (Hwf0 & Hno0 & _).
  fold st0 in Hwf0, Hno0.
  destruct (accept_effect (snd s0) (fst st0) (snd st0) r Hwf0 Hno0 Hacc)
    as (Hwf1 & Hl1 & _ & He1 & _ & Hnow1 & Htr).
  cbv zeta in Hwf1, Hl1, He1, Hnow1.
  assert (Est : st1 = ActiveScan._scan (snd s0) (fst st0) (snd st0))
    by apply tick_eq.
  rewrite <- Est in Hwf1, Hl1, He1, Hnow1.
  assert (Harm : armed r
                   (Window.mkTimer (Window.next_timer (snd st0))
                      (Window.now (snd st0)
                       + Z.max 0 (ActiveScan.refractoryPeriod (fst st0)))
                      Window.ClearLastResult)
                   (fst st1) (snd st1)) by (unfold armed; auto).
  destruct (armed_expires_now _ _ _ _ (fst s1) Harm) as (_ & Hl2).
  { cbn. rewrite Hnow1. lia. }
  cbv zeta in Hl2. fold st2 in Hl2.
  split; [exact Hl1 | split; [exact Hl2 |]].
  intros Hd. unfold accepted. rewrite Hd, Hl2, Htr. reflexivity.
Qed.

Lemma zero_refractory_period_suppresses_nothing_witness :
  accepted frame_x
    (fst (ActiveScan.advance 10
            (fst (ActiveScan.tick
                    (ActiveScan.set_refractoryPeriod 0 (fst primed))
                    (snd primed) (10, frame_x)))
            (snd (ActiveScan.tick
                    (ActiveScan.set_refractoryPeriod 0 (fst primed))
                    (snd primed) (10, frame_x)))))
    (snd (ActiveScan.advance 10
            (fst (ActiveScan.tick
                    (ActiveScan.set_refractoryPeriod 0 (fst primed))
                    (snd primed) (10, frame_x)))
            (snd (ActiveScan.tick
                    (ActiveScan.set_refractoryPeriod 0 (fst primed))
                    (snd primed) (10, frame_x)))))
  = Some "X"%string.
Proof.
  assert (Hwf : wf (ActiveScan.set_refractoryPeriod 0 (fst primed)) (snd primed))
    by (intros tm []).
  assert (HR : 0 <= 0) by lia.
  destruct (zero_refractory_period_suppresses_nothing
              (ActiveScan.set_refractoryPeriod 0 (fst primed)) (snd primed)
              (10, frame_x) (10, frame_x) "X" Hwf eq_refl HR)
    as (_ & _ & H).
  exact (H eq_refl).
Defined.

(** ** When the loop analyses again *)

(** As long as the counter stays below the period no callback analyses. *)
Lemma counting_up (sched : list (Z * Frame)) :
  forall this w,
    ActiveScan._active this = true ->
    ActiveScan._frameCount this + Z.of_nat (List.length sched)
      < ActiveScan.scanPeriod this ->
    let st := ActiveScan.run sched this w in
    analyses (snd st) = analyses w /\
    ActiveScan._frameCount (fst st) =
      ActiveScan._frameCount this + Z.of_nat (List.length sched) /\
    ActiveScan._active (fst st) = true /\
    ActiveScan.scanPeriod (fst st) = ActiveScan.scanPeriod this.
Proof.
  induction sched as [| s sched IH]; intros this w Ha Hlt.
  - cbn -[Z.add]. repeat split; auto; lia.
  - cbv zeta. rewrite run_cons. cbn [List.length] in Hlt.
    pose proof (tick_cadence this w s Ha) as (H1 & H2 & H3 & H4).
    cbv zeta in *.
    assert (Hn : (ActiveScan._frameCount this + 1
                  =? ActiveScan.scanPeriod this) = false)
      by (apply Z.eqb_neq; lia).
    rewrite Hn in *.
    set (this1 := fst (ActiveScan.tick this w s)) in *.
    set (w1 := snd (ActiveScan.tick this w s)) in *.
    assert (Hlt1 : ActiveScan._frameCount this1 + Z.of_nat (List.length sched)
                   < ActiveScan.scanPeriod this1) by lia.
    destruct (IH this1 w1 H3 Hlt1) as (G1 & G2 & G3 & G4). cbv zeta in *.
    rewrite G1, G2, G4, H1, H2, H4. cbn [List.length].
    repeat split; auto; lia.
Qed.

Lemma run_app (a b : list (Z * Frame)) this w :
  ActiveScan.run (a ++ b) this w =
    ActiveScan.run b (fst (ActiveScan.run a this w))
      (snd (ActiveScan.run a this w)).
Proof.
  unfold ActiveScan.run. rewrite fold_left_app.
  destruct (fold_left _ a (this, w)); reflexivity.
Qed.

(** X12: an active loop calls [analyze] again at some later frame
    callback exactly when its counter is below [scanPeriod]; the call then
    comes at callback number [scanPeriod - _frameCount] and not before.  A
    period that is zero, negative or not above the counter stops the
    decoding for good. *)
Theorem loop_analyses_again_iff_counter_below_period :
  forall (this : ActiveScan.t) (w : Window.t),
    ActiveScan._active this = true ->
    let c := ActiveScan._frameCount this in
    let N := ActiveScan.scanPeriod this in
    ((exists sched,
        analyses (snd (ActiveScan.run sched this w)) <> analyses w)
     <-> c < N) /\
    (c < N ->
     forall sched,
       (Z.of_nat (List.length sched) < N - c ->
        analyses (snd (ActiveScan.run sched this w)) = analyses w) /\
       (Z.of_nat (List.length sched) = N - c ->
        analyses (snd (ActiveScan.run sched this w)) = analyses w + 1 /\
        ActiveScan._frameCount (fst (ActiveScan.run sched this w)) = 0)).
Proof.
  intros this w Ha c N.
  assert (Hhit : c < N -> forall sched,
            Z.of_nat (List.length sched) = N - c ->
            analyses (snd (ActiveScan.run sched this w)) = analyses w + 1 /\
            ActiveScan._frameCount (fst (ActiveScan.run sched this w)) = 0).
  { intros Hlt sched Hlen.
    destruct (exists_last (l := sched)) as (pre & s & ->).
    { intros ->. cbn in Hlen. lia. }
    rewrite length_app in Hlen. cbn [List.length] in Hlen.
    rewrite run_app.
    destruct (counting_up pre this w Ha) as (G1 & G2 & G3 & G4);
      [unfold c, N in *; lia |].
    cbv zeta in *.
    set (this1 := fst (ActiveScan.run pre this w)) in *.
    set (w1 := snd (ActiveScan.run pre this w)) in *.
    rewrite run_cons.
    pose proof (tick_cadence this1 w1 s G3) as (H1 & H2 & _).
    cbv zeta in *.
    assert (He : (ActiveScan._frameCount this1 + 1
                  =? ActiveScan.scanPeriod this1) = true)
      by (apply Z.eqb_eq; unfold c, N in *; lia).
    rewrite He in *. cbn. rewrite H1, H2, G1. auto. }
  split; [split |].
  - intros (sched & Hne).
    destruct (Z_lt_le_dec c N) as [Hlt | Hle]; [exact Hlt |].
    exfalso. apply Hne. apply (stalled sched this w Ha Hle).
  - intros Hlt.
    exists (repeat (0, frame_x) (Z.to_nat (N - c))).
    destruct (Hhit Hlt (repeat (0, frame_x) (Z.to_nat (N - c)))) as [H _].
    { rewrite repeat_length. lia. }
    rewrite H. lia.
  - intros Hlt sched. split; [| apply Hhit, Hlt].
    intros Hlen. apply (counting_up sched this w Ha). unfold c, N in *. lia.
Qed.

Lemma loop_analyses_again_iff_counter_below_period_witness :
  ~ (exists sched,
       analyses (snd (ActiveScan.run sched (Scanner._scan (fst lowered))
                        (snd lowered)))
       <> analyses (snd lowered)).
Proof.
  intros H.
  apply (proj1 (proj1 (loop_analyses_again_iff_counter_below_period
                         (Scanner._scan (fst lowered)) (snd lowered) eq_refl)))
    in H.
  cbn in H. lia.
Defined.

(** ** The decode callback *)

Lemma string_app_assoc (a b c : string) :
  ((a ++ b) ++ c)%string = (a ++ (b ++ c))%string.
Proof. induction a as [| x a IH]; cbn; [reflexivity | rewrite IH; reflexivity]. Qed.

Lemma string_app_nil_r (a : string) : (a ++ "")%string = a.
Proof. induction a as [| x a IH]; cbn; [reflexivity | rewrite IH; reflexivity]. Qed.

Lemma fold_chunks (rest : list (string * Z)) :
  forall acc,
    Forall (fun c => snd c <> 0) rest ->
    fold_left Analyzer.decodeCallback rest (Some acc) =
      Some (acc ++ join rest)%string.
Proof.
  induction rest as [| [s i] rest IH]; intros acc H; cbn.
  - rewrite string_app_nil_r. reflexivity.
  - inversion H as [| ? ? Hi Hrest]; subst. cbn in Hi.
    apply Z.eqb_neq in Hi. rewrite Hi. cbn.
    rewrite (IH _ Hrest), string_app_assoc. reflexivity.
Qed.

(** X13: when the decoder hands over a text in chunks, the first with
    index 0 and the others with other indices, [analyze] returns their
    concatenation, whatever an earlier decode left in [window.zxDecodeResult];
    with a non-zero status it returns none, but the text is left in the
    window all the same. *)
Theorem chunks_are_concatenated :
  forall (f : Frame) (an : Analyzer.t) (w : Window.t) (s0 : string)
         (rest : list (string * Z)),
    videoWidth f <> 0 ->
    Analyzer.has_buffer an = true ->
    decode_chunks f = (s0, 0) :: rest ->
    Forall (fun c => snd c <> 0) rest ->
    Window.zxDecodeResult (snd (Analyzer.analyze f an w)) =
      Some (s0 ++ join rest)%string /\
    fst (fst (Analyzer.analyze f an w)) =
      (if decode_status f =? 0
       then Some ((s0 ++ join rest)%string, Analyzer.canvas_ an)
       else None).
Proof.
  intros f an w s0 rest Hw Hb Hc Hr.
  destruct (analyze_decodes f an w Hw Hb) as (H1 & H2 & _). cbv zeta in *.
  assert (E : fold_left Analyzer.decodeCallback (decode_chunks f)
                (Window.zxDecodeResult w) = Some (s0 ++ join rest)%string).
  { rewrite Hc. cbn. apply (fold_chunks rest _ Hr). }
  rewrite E in *. split; [exact H2 |].
  rewrite H1. cbn. unfold truthy_number.
  destruct (decode_status f =? 0); reflexivity.
Qed.

Lemma chunks_are_concatenated_witness :
  fst (fst (Analyzer.analyze frame_two_chunks allocated (snd primed))) =
    Some ("HELLO"%string, Analyzer.canvas_ allocated).
Proof.
  assert (Hw : videoWidth frame_two_chunks <> 0) by (cbn; lia).
  assert (Hr : Forall (fun c : string * Z => snd c <> 0) [("LO"%string, 1)]).
  { repeat constructor. cbn. lia. }
  exact (proj2 (chunks_are_concatenated frame_two_chunks allocated (snd primed)
                  "HEL" [("LO"%string, 1)] Hw eq_refl eq_refl Hr)).
Defined.

(** X14: a decode that reports success without calling the callback makes
    [analyze] return the text the previous decode assembled, even when that
    decode had failed: the accumulator lives in the window and is only reset
    by a chunk with index 0. *)
Theorem silent_decode_returns_previous_text :
  forall (f1 f2 : Frame) (an : Analyzer.t) (w : Window.t) (r : string),
    Analyzer.has_buffer an = true ->
    videoWidth f1 <> 0 ->
    videoWidth f2 <> 0 ->
    fold_left Analyzer.decodeCallback (decode_chunks f1)
      (Window.zxDecodeResult w) = Some r ->
    decode_chunks f2 = [] ->
    decode_status f2 = 0 ->
    let st1 := Analyzer.analyze f1 an w in
    snd (fst st1) = an /\
    fst (fst (Analyzer.analyze f2 (snd (fst st1)) (snd st1))) =
      Some (r, Analyzer.canvas_ an).
Proof.
  intros f1 f2 an w r Hb Hw1 Hw2 Hr Hc Hs st1.
  destruct (analyze_decodes f1 an w Hw1 Hb) as (H1 & H2 & _). cbv zeta in *.
  fold st1 in H1, H2.
  assert (Ean : snd (fst st1) = an) by (rewrite H1; reflexivity).
  split; [exact Ean |]. rewrite Ean.
  destruct (analyze_decodes f2 an (snd st1) Hw2 Hb) as (G1 & _). cbv zeta in *.
  rewrite G1, Hc, Hs. cbn. rewrite H2, Hr. reflexivity.
Qed.

Lemma silent_decode_returns_previous_text_witness :
  fst (fst (Analyzer.analyze frame_silent
              (snd (fst (Analyzer.analyze frame_failed allocated (snd primed))))
              (snd (Analyzer.analyze frame_failed allocated (snd primed)))))
  = Some ("OLD"%string, Analyzer.canvas_ allocated) /\
  fst (fst (Analyzer.analyze frame_failed allocated (snd primed))) = None.
Proof.
  assert (Hw1 : videoWidth frame_failed <> 0) by (cbn; lia).
  assert (Hw2 : videoWidth frame_silent <> 0) by (cbn; lia).
  split; [| reflexivity].
  exact (proj2 (silent_decode_returns_previous_text frame_failed frame_silent
                  allocated (snd primed) "OLD" eq_refl Hw1 Hw2 eq_refl eq_refl
                  eq_refl)).
Defined.

(** ** The pixel buffer *)

Lemma list_ind4 {A} (P : list A -> Prop) :
  P [] ->
  (forall a, P [a]) ->
  (forall a b, P [a; b]) ->
  (forall a b c, P [a; b; c]) ->
  (forall a b c d l, P l -> P (a :: b :: c :: d :: l)) ->
  forall l, P l.
Proof.
  intros H0 H1 H2 H3 H4.
  assert (H : forall n l, (List.length l <= n)%nat -> P l).
  { induction n as [| n IH]; intros l Hl.
    - destruct l; [exact H0 | cbn in Hl; lia].
    - destruct l as [| a [| b [| c [| d l]]]]; auto.
      apply H4, IH. cbn in Hl. lia. }
  intros l. apply (H (List.length l)). lia.
Qed.

Lemma copy_channel_loads (base : Z) (data : list Z) :
  forall j heap,
    (forall i, (4 * i < List.length data)%nat ->
       load (base + (j + Z.of_nat i))
            (Analyzer.copy_channel data base j heap)
       = Some (nth (4 * i) data 0 mod 256)) /\
    (forall addr,
       addr < base + j \/
       base + j + Z.of_nat ((List.length data + 3) / 4) <= addr ->
       load addr (Analyzer.copy_channel data base j heap) = load addr heap).
Proof.
  induction data as [| a | a b | a b c | a b c d rest IH] using list_ind4;
    intros j heap.
  - split; [intros i Hi; cbn in Hi; lia | reflexivity].
  - split.
    + intros i Hi. cbn in Hi. assert (i = 0%nat) by lia. subst i.
      cbn. replace (base + j =? base + (j + 0)) with true
        by (symmetry; apply Z.eqb_eq; lia). reflexivity.
    + intros addr Ha. cbn in Ha |- *.
      replace (base + j =? addr) with false
        by (symmetry; apply Z.eqb_neq; lia). reflexivity.
  - split.
    + intros i Hi. cbn in Hi. assert (i = 0%nat) by lia. subst i.
      cbn. replace (base + j =? base + (j + 0)) with true
        by (symmetry; apply Z.eqb_eq; lia). reflexivity.
    + intros addr Ha. cbn in Ha |- *.
      replace (base + j =? addr) with false
        by (symmetry; apply Z.eqb_neq; lia). reflexivity.
  - split.
    + intros i Hi. cbn in Hi. assert (i = 0%nat) by lia. subst i.
      cbn. replace (base + j =? base + (j + 0)) with true
        by (symmetry; apply Z.eqb_eq; lia). reflexivity.
    + intros addr Ha. cbn in Ha |- *.
      replace (base + j =? addr) with false
        by (symmetry; apply Z.eqb_neq; lia). reflexivity.
  - destruct (IH (j + 1) ((base + j, a mod 256) :: heap)) as [IH1 IH2].
    assert (Hdiv : ((List.length (a :: b :: c :: d :: rest) + 3) / 4
                    = 1 + (List.length rest + 3) / 4)%nat).
    { cbn [List.length].
      replace (S (S (S (S (List.length rest)))) + 3)%nat
        with (List.length rest + 3 + 1 * 4)%nat by lia.
      rewrite Nat.div_add by lia. lia. }
    split.
    + intros i Hi. cbn [List.length] in Hi. cbn [Analyzer.copy_channel].
      destruct i as [| i].
      * rewrite IH2 by lia. cbn.
        replace (base + j =? base + (j + 0)) with true
          by (symmetry; apply Z.eqb_eq; lia). reflexivity.
      * replace (4 * S i)%nat with (S (S (S (S (4 * i))))) by lia.
        cbn [nth].
        replace (base + (j + Z.of_nat (S i)))
          with (base + (j + 1 + Z.of_nat i)) by lia.
        apply IH1. lia.
    + intros addr Ha. rewrite Hdiv in Ha. cbn [Analyzer.copy_channel].
      rewrite IH2 by lia. cbn.
      replace (base + j =? addr) with false
        by (symmetry; apply Z.eqb_neq; lia). reflexivity.
Qed.

(** X15: the copy loop stores the first byte of every pixel, in order,
    from the buffer address on: byte [i] of the buffer is byte [4 i] of the
    image data, one byte for every started group of four; no other address
    of the heap is written. *)
Theorem copy_loop_stores_first_channel :
  forall (data : list Z) (base : Z) (heap : list (Z * Z)),
    (forall i, (4 * i < List.length data)%nat ->
       load (base + Z.of_nat i) (Analyzer.copy_channel data base 0 heap)
       = Some (nth (4 * i) data 0 mod 256)) /\
    (forall addr,
       addr < base \/ base + Z.of_nat ((List.length data + 3) / 4) <= addr ->
       load addr (Analyzer.copy_channel data base 0 heap) = load addr heap).
Proof.
  intros data base heap.
  destruct (copy_channel_loads base data 0 heap) as [H1 H2]. split.
  - intros i Hi. rewrite <- (H1 i Hi). reflexivity.
  - intros addr Ha. apply H2. lia.
Qed.

(** The calls of one [analyze] on an analyzer that has its buffer. *)
Lemma analyze_with_buffer f an w :
  Analyzer.has_buffer an = true ->
  snd (fst (Analyzer.analyze f an w)) = an /\
  exists l,
    Window.trace (snd (Analyzer.analyze f an w)) = Window.trace w ++ l /\
    forall x y, ~ In (Window.Resize x y) l.
Proof.
  intros Hb. destruct (Z.eq_dec (videoWidth f) 0) as [H0 | H0].
  - rewrite (analyze_no_width f an w H0). cbn. split; [reflexivity |].
    exists [Window.Analyze]. split; [reflexivity |].
    intros x y [H | []]; discriminate.
  - destruct (analyze_decodes f an w H0 Hb) as (H1 & _ & Ht). cbv zeta in *.
    rewrite H1. split; [reflexivity |]. eexists. split; [exact Ht |].
    intros x y [H | [H | [H | [H | []]]]]; discriminate.
Qed.

(** X16: once the buffer is allocated the analyzer never changes again:
    whatever sizes later frames report, the sensor window, the canvas and the
    buffer stay those of the first measured frame, and [ZXing._resize] is
    not called a second time. *)
Theorem buffer_is_allocated_once :
  forall (fs : list Frame) (an : Analyzer.t) (w : Window.t),
    Analyzer.has_buffer an = true ->
    snd (fst (analyze_all fs an w)) = an /\
    forall x y,
      ~ In (Window.Resize x y) (calls_since w (snd (analyze_all fs an w))).
Proof.
  intros fs an w Hb.
  assert (H : snd (fst (analyze_all fs an w)) = an /\
              exists l,
                Window.trace (snd (analyze_all fs an w)) = Window.trace w ++ l /\
                forall x y, ~ In (Window.Resize x y) l).
  { revert w. induction fs as [| f fs IH]; intros w; cbn.
    - split; [reflexivity |]. exists []. rewrite app_nil_r. auto.
    - destruct (analyze_with_buffer f an w Hb) as (H1 & l1 & Ht1 & Hn1).
      destruct (Analyzer.analyze f an w) as [[r an1] w1]. cbn in H1, Ht1.
      subst an1. destruct (IH w1) as (H2 & l2 & Ht2 & Hn2).
      destruct (analyze_all fs an w1) as [[rs an2] w2]. cbn in *.
      split; [exact H2 |]. exists (l1 ++ l2).
      rewrite Ht2, Ht1, app_assoc. split; [reflexivity |].
      intros x y Hin. apply in_app_or in Hin.
      destruct Hin as [Hin | Hin]; [exact (Hn1 x y Hin) | exact (Hn2 x y Hin)]. }
  destruct H as (H1 & l & Ht & Hn). split; [exact H1 |].
  intros x y. unfold calls_since. rewrite Ht, skipn_length_app. apply Hn.
Qed.

Lemma buffer_is_allocated_once_witness :
  snd (fst (analyze_all
              [frame_x; mkFrame 640 480 [] 2048 0 [] ""; frame_a]
              allocated (snd primed)))
  = allocated.
Proof.
  exact (proj1 (buffer_is_allocated_once
                  [frame_x; mkFrame 640 480 [] 2048 0 [] ""; frame_a]
                  allocated (snd primed) eq_refl)).
Defined.

(** X17: when [ZXing._resize] returns 0 the buffer counts as missing: as
    long as it does, every call with a video width allocates again and
    returns none, and the decoder is never called. *)
Theorem null_buffer_is_never_decoded :
  forall (fs : list Frame) (an : Analyzer.t) (w : Window.t),
    Analyzer.has_buffer an = false ->
    Forall (fun f => videoWidth f <> 0 /\ resized f = 0) fs ->
    fst (fst (analyze_all fs an w)) = repeat None (List.length fs) /\
    Analyzer.has_buffer (snd (fst (analyze_all fs an w))) = false /\
    ~ In Window.DecodeQr (calls_since w (snd (analyze_all fs an w))) /\
    count_occ Nat.eq_dec
      (map (fun e => match e with Window.Resize _ _ => 1%nat | _ => 0%nat end)
         (calls_since w (snd (analyze_all fs an w)))) 1%nat
    = List.length fs.
Proof.
  intros fs an w Hb Hall.
  assert (H : fst (fst (analyze_all fs an w)) = repeat None (List.length fs) /\
              Analyzer.has_buffer (snd (fst (analyze_all fs an w))) = false /\
              exists l,
                Window.trace (snd (analyze_all fs an w)) = Window.trace w ++ l /\
                ~ In Window.DecodeQr l /\
                count_occ Nat.eq_dec
                  (map (fun e => match e with
                                 | Window.Resize _ _ => 1%nat
                                 | _ => 0%nat
                                 end) l) 1%nat = List.length fs).
  { revert an w Hb. induction Hall as [| f fs [Hw Hr] Hrest IH]; intros an w Hb.
    - cbn. split; [reflexivity | split; [exact Hb |]].
      exists []. rewrite app_nil_r. auto.
    - cbn [analyze_all]. rewrite (analyze_allocates f an w Hw Hb).
      set (an1 := Analyzer.mk _ _ _ _ _ _ _).
      set (w1 := Window.log _ _).
      assert (Hb1 : Analyzer.has_buffer an1 = false)
        by (unfold an1, Analyzer.has_buffer; cbn; rewrite Hr; reflexivity).
      destruct (IH an1 w1 Hb1) as (H1 & H2 & l & Ht & Hn & Hc).
      destruct (analyze_all fs an1 w1) as [[rs an2] w2]. cbn in *.
      split; [rewrite H1; reflexivity | split; [exact H2 |]].
      exists ([Window.Analyze;
               Window.Resize (videoWidth f) (videoHeight f)] ++ l).
      rewrite Ht. unfold w1. cbn. repeat rewrite <- app_assoc. cbn.
      split; [reflexivity | split].
      + intros [H | [H | H]]; try discriminate. exact (Hn H).
      + rewrite Hc. reflexivity. }
  destruct H as (H1 & H2 & l & Ht & Hn & Hc).
  unfold calls_since. rewrite Ht, skipn_length_app. auto.
Qed.

Lemma null_buffer_is_never_decoded_witness :
  fst (fst (analyze_all
              [mkFrame 2 2 [] 0 0 [("X"%string, 0)] "";
               mkFrame 2 2 [] 0 0 [("X"%string, 0)] ""]
              Analyzer.new (Window.fresh "visible")))
  = [None; None].
Proof.
  assert (Hall : Forall (fun f => videoWidth f <> 0 /\ resized f = 0)
                   [mkFrame 2 2 [] 0 0 [("X"%string, 0)] "";
                    mkFrame 2 2 [] 0 0 [("X"%string, 0)] ""]).
  { repeat constructor; cbn; lia. }
  exact (proj1 (null_buffer_is_never_decoded _ Analyzer.new
                  (Window.fresh "visible") eq_refl Hall)).
Defined.

(** ** Switching cameras *)




